(** * pySOT [GlobalStrategy]: the evaluation scheduler of [pySOT/strategy.py]

    A shallow embedding of the class [GlobalStrategy]: its attributes are a
    record, every method is a function on that record, and the POAP
    controller that drives it (propose, accept or reject, complete or abort)
    is a step function over a small world that also holds the proposals and
    records in flight.  Floating point numbers are read as rationals; the
    only float that is not a rational here is [np.inf], which gets a
    constructor of its own. *)

From Stdlib Require Import ZArith QArith List Bool Lia String.
From stdpp Require Import gmap strings.
Import ListNotations.
Open Scope Z_scope.

(** ** Numbers, points and matrices *)

(** A number or [np.inf]. *)
Inductive ext (A : Type) : Type :=
| Fin (a : A)
| Inf.
Arguments Fin {A} a.
Arguments Inf {A}.

(** A point is one row of a numpy matrix; a matrix is its list of rows. *)
Definition point := list Q.
Definition matrix := list point.

(** [n >= m] where [m] may be [np.inf]. *)
Definition ge_ext (n : Z) (m : ext Z) : bool :=
  match m with
  | Fin k => k <=? n
  | Inf => false
  end.

(** [t >= m] for an elapsed time [t]. *)
Definition time_ge (t : Q) (m : ext Z) : bool :=
  match m with
  | Fin k => Qle_bool (inject_Z k) t
  | Inf => false
  end.

(** [m - n] where [m] may be [np.inf]. *)
Definition ext_sub (m : ext Z) (n : Z) : ext Z :=
  match m with
  | Fin k => Fin (k - n)
  | Inf => Inf
  end.

(** Python's [min(a, b)] of an integer and a possibly infinite number. *)
Definition min_ext (a : Z) (b : ext Z) : Z :=
  match b with
  | Fin k => if k <? a then k else a
  | Inf => a
  end.

(** [(row == x).all()]: the two rows agree in every column. *)
Fixpoint row_eqb (row x : point) : bool :=
  match row, x with
  | [], [] => true
  | a :: row', b :: x' => Qeq_bool a b && row_eqb row' x'
  | _, _ => false
  end.

(** ** Exceptions *)

Inductive exn := IndexError | AssertionError | AttributeError.

Inductive result (A : Type) : Type :=
| Ok (a : A)
| Raise (e : exn).
Arguments Ok {A} a.
Arguments Raise {A} e.

(** Sequencing: the first exception ends the call.  With this instance
    stdpp's [x ← r; k] reads as two Python statements in a row. *)
#[global] Instance result_bind : MBind result := fun A B k r =>
  match r with
  | Ok a => k a
  | Raise e => Raise e
  end.

(** [m[i, :]] *)
Definition row_at (m : matrix) (i : nat) : result point :=
  match nth_error m i with
  | Some r => Ok r
  | None => Raise IndexError
  end.

(** [[m[i, :] for i in idx]] *)
Fixpoint rows_at (m : matrix) (idx : list nat) : result matrix :=
  match idx with
  | [] => Ok []
  | i :: idx' =>
      r ← row_at m i;
      rs ← rows_at m idx';
      Ok (r :: rs)
  end.

(** [range(n)] *)
Definition range (n : Z) : list nat := seq 0 (Z.to_nat n).

(** [q.pop()]: the last element leaves the list. *)
Definition pop (q : list point) : result (point * list point) :=
  match rev q with
  | [] => Raise IndexError
  | x :: r => Ok (x, rev r)
  end.

(** ** POAP proposals and records *)

Inductive proposal_callback := cb_on_initial_proposal | cb_on_adapt_proposal.
Inductive record_callback := cb_on_initial_update | cb_on_adapt_update.

(** [Proposal('eval', x)] with the attributes the strategy adds to it.
    [args] is the point [x], which a handler reads as [proposal.args[0]]. *)
Record Proposal := mkProposal {
  args : point;
  ev_id : Z;
  pred_val : option Q;
  callbacks : list proposal_callback
}.

(** [proposal.params]: a proposal has no such attribute ([params] is an
    attribute of evaluation records), so reading it raises. *)
Definition proposal_params (p : Proposal) : result point :=
  Raise AttributeError.

(** What [propose_action] hands to the controller. *)
Inductive Action :=
| terminate_action          (* Proposal('terminate') *)
| eval_action (p : Proposal).

(** [record.status]; a completed record carries [record.value]. *)
Inductive Status :=
| pending
| running
| completed (value : Q)
| cancelled
| killed.

(** An evaluation record; [params] is [record.params[0]].  [None] in
    [rec_pred_val] is [np.nan]. *)
Record EvalRecord := mkEvalRecord {
  params : point;
  status : Status;
  rec_ev_id : Z;
  rec_pred_val : option Q;
  worker_numeval : Z;
  feasible : bool;
  rec_callbacks : list record_callback
}.

(** ** The collaborators: problem, design, sampler, surrogate, criterion *)

Record Collaborators := mkCollaborators {
  dim : nat;                         (* opt_prob.dim *)
  start_sample : matrix;
    (* exp_design.generate_points(), mapped into the box and rounded *)
  make_points :
    Z -> list (point * Q) -> matrix -> list Q -> matrix -> Q -> matrix;
    (* adapt_sampling.make_points(npts, surrogate, X, fX, Xpend,
       sampling_radius) *)
  surrogate_eval : list (point * Q) -> point -> Q;
  stopping_criterion : option (Q -> bool)
}.

(** ** The strategy object

    The attributes of [GlobalStrategy] that hold data.  The attributes
    that hold collaborators ([opt_prob], [exp_design], [adapt_sampling],
    [stopping_criterion] and the model inside [surrogate]) are the record
    above; [extra] is stored and never read. *)

Record GlobalStrategy := mkGlobalStrategy {
  start_time : Q;  (* wall clock at construction *)
  maxeval : ext Z;  (* evaluation budget, np.inf under a time budget *)
  time_budget : ext Z;  (* seconds, np.inf under an evaluation budget *)
  proposal_counter : Z;
  terminate : bool;
  asynchronous : bool;
  batch_size : Z;  (* not used if asynchronous *)
  surrogate : list (point * Q);  (* what add_points got since reset() *)
  phase : Z;  (* 1 for initial, 2 for adaptive *)
  rejected_count : Z;
  accepted_count : Z;
  ev_last : Z;  (* last event index *)
  ev_adjust : Z;  (* last sampling adjustment *)
  ev_restart : Z;  (* last restart *)
  batch_queue : list point;  (* unassigned points in initial experiment *)
  init_pending : Z;  (* number of outstanding initial fevals *)
  numeval : Z;  (* number of completed fevals *)
  feval_budget : Z;  (* remaining feval budget *)
  feval_pending : Z;  (* number of outstanding fevals *)
  X : matrix;
  fX : list Q;  (* one value per row of X *)
  Xpend : matrix;
  xbest : option point;  (* current best x *)
  fbest : ext Q;  (* current best f *)
  fevals : list EvalRecord  (* completed records *)
}.

(** Attribute assignment [self.f = v]: one setter per attribute the methods
    write. *)
Definition set_proposal_counter (v : Z) (s : GlobalStrategy) : GlobalStrategy :=
  mkGlobalStrategy (start_time s) (maxeval s) (time_budget s) v (terminate s)
    (asynchronous s) (batch_size s) (surrogate s) (phase s)
    (rejected_count s) (accepted_count s) (ev_last s) (ev_adjust s)
    (ev_restart s) (batch_queue s) (init_pending s) (numeval s)
    (feval_budget s) (feval_pending s) (X s) (fX s) (Xpend s) (xbest s)
    (fbest s) (fevals s).
Definition set_terminate (v : bool) (s : GlobalStrategy) : GlobalStrategy :=
  mkGlobalStrategy (start_time s) (maxeval s) (time_budget s)
    (proposal_counter s) v (asynchronous s) (batch_size s) (surrogate s)
    (phase s) (rejected_count s) (accepted_count s) (ev_last s) (ev_adjust s)
    (ev_restart s) (batch_queue s) (init_pending s) (numeval s)
    (feval_budget s) (feval_pending s) (X s) (fX s) (Xpend s) (xbest s)
    (fbest s) (fevals s).
Definition set_surrogate (v : list (point * Q)) (s : GlobalStrategy)
  : GlobalStrategy :=
  mkGlobalStrategy (start_time s) (maxeval s) (time_budget s)
    (proposal_counter s) (terminate s) (asynchronous s) (batch_size s) v
    (phase s) (rejected_count s) (accepted_count s) (ev_last s) (ev_adjust s)
    (ev_restart s) (batch_queue s) (init_pending s) (numeval s)
    (feval_budget s) (feval_pending s) (X s) (fX s) (Xpend s) (xbest s)
    (fbest s) (fevals s).
Definition set_phase (v : Z) (s : GlobalStrategy) : GlobalStrategy :=
  mkGlobalStrategy (start_time s) (maxeval s) (time_budget s)
    (proposal_counter s) (terminate s) (asynchronous s) (batch_size s)
    (surrogate s) v (rejected_count s) (accepted_count s) (ev_last s)
    (ev_adjust s) (ev_restart s) (batch_queue s) (init_pending s) (numeval s)
    (feval_budget s) (feval_pending s) (X s) (fX s) (Xpend s) (xbest s)
    (fbest s) (fevals s).
Definition set_rejected_count (v : Z) (s : GlobalStrategy) : GlobalStrategy :=
  mkGlobalStrategy (start_time s) (maxeval s) (time_budget s)
    (proposal_counter s) (terminate s) (asynchronous s) (batch_size s)
    (surrogate s) (phase s) v (accepted_count s) (ev_last s) (ev_adjust s)
    (ev_restart s) (batch_queue s) (init_pending s) (numeval s)
    (feval_budget s) (feval_pending s) (X s) (fX s) (Xpend s) (xbest s)
    (fbest s) (fevals s).
Definition set_accepted_count (v : Z) (s : GlobalStrategy) : GlobalStrategy :=
  mkGlobalStrategy (start_time s) (maxeval s) (time_budget s)
    (proposal_counter s) (terminate s) (asynchronous s) (batch_size s)
    (surrogate s) (phase s) (rejected_count s) v (ev_last s) (ev_adjust s)
    (ev_restart s) (batch_queue s) (init_pending s) (numeval s)
    (feval_budget s) (feval_pending s) (X s) (fX s) (Xpend s) (xbest s)
    (fbest s) (fevals s).
Definition set_ev_last (v : Z) (s : GlobalStrategy) : GlobalStrategy :=
  mkGlobalStrategy (start_time s) (maxeval s) (time_budget s)
    (proposal_counter s) (terminate s) (asynchronous s) (batch_size s)
    (surrogate s) (phase s) (rejected_count s) (accepted_count s) v
    (ev_adjust s) (ev_restart s) (batch_queue s) (init_pending s) (numeval s)
    (feval_budget s) (feval_pending s) (X s) (fX s) (Xpend s) (xbest s)
    (fbest s) (fevals s).
Definition set_batch_queue (v : list point) (s : GlobalStrategy)
  : GlobalStrategy :=
  mkGlobalStrategy (start_time s) (maxeval s) (time_budget s)
    (proposal_counter s) (terminate s) (asynchronous s) (batch_size s)
    (surrogate s) (phase s) (rejected_count s) (accepted_count s) (ev_last s)
    (ev_adjust s) (ev_restart s) v (init_pending s) (numeval s)
    (feval_budget s) (feval_pending s) (X s) (fX s) (Xpend s) (xbest s)
    (fbest s) (fevals s).
Definition set_init_pending (v : Z) (s : GlobalStrategy) : GlobalStrategy :=
  mkGlobalStrategy (start_time s) (maxeval s) (time_budget s)
    (proposal_counter s) (terminate s) (asynchronous s) (batch_size s)
    (surrogate s) (phase s) (rejected_count s) (accepted_count s) (ev_last s)
    (ev_adjust s) (ev_restart s) (batch_queue s) v (numeval s)
    (feval_budget s) (feval_pending s) (X s) (fX s) (Xpend s) (xbest s)
    (fbest s) (fevals s).
Definition set_numeval (v : Z) (s : GlobalStrategy) : GlobalStrategy :=
  mkGlobalStrategy (start_time s) (maxeval s) (time_budget s)
    (proposal_counter s) (terminate s) (asynchronous s) (batch_size s)
    (surrogate s) (phase s) (rejected_count s) (accepted_count s) (ev_last s)
    (ev_adjust s) (ev_restart s) (batch_queue s) (init_pending s) v
    (feval_budget s) (feval_pending s) (X s) (fX s) (Xpend s) (xbest s)
    (fbest s) (fevals s).
Definition set_feval_budget (v : Z) (s : GlobalStrategy) : GlobalStrategy :=
  mkGlobalStrategy (start_time s) (maxeval s) (time_budget s)
    (proposal_counter s) (terminate s) (asynchronous s) (batch_size s)
    (surrogate s) (phase s) (rejected_count s) (accepted_count s) (ev_last s)
    (ev_adjust s) (ev_restart s) (batch_queue s) (init_pending s) (numeval s)
    v (feval_pending s) (X s) (fX s) (Xpend s) (xbest s) (fbest s) (fevals s).
Definition set_feval_pending (v : Z) (s : GlobalStrategy) : GlobalStrategy :=
  mkGlobalStrategy (start_time s) (maxeval s) (time_budget s)
    (proposal_counter s) (terminate s) (asynchronous s) (batch_size s)
    (surrogate s) (phase s) (rejected_count s) (accepted_count s) (ev_last s)
    (ev_adjust s) (ev_restart s) (batch_queue s) (init_pending s) (numeval s)
    (feval_budget s) v (X s) (fX s) (Xpend s) (xbest s) (fbest s) (fevals s).
Definition set_X (v : matrix) (s : GlobalStrategy) : GlobalStrategy :=
  mkGlobalStrategy (start_time s) (maxeval s) (time_budget s)
    (proposal_counter s) (terminate s) (asynchronous s) (batch_size s)
    (surrogate s) (phase s) (rejected_count s) (accepted_count s) (ev_last s)
    (ev_adjust s) (ev_restart s) (batch_queue s) (init_pending s) (numeval s)
    (feval_budget s) (feval_pending s) v (fX s) (Xpend s) (xbest s) (fbest s)
    (fevals s).
Definition set_fX (v : list Q) (s : GlobalStrategy) : GlobalStrategy :=
  mkGlobalStrategy (start_time s) (maxeval s) (time_budget s)
    (proposal_counter s) (terminate s) (asynchronous s) (batch_size s)
    (surrogate s) (phase s) (rejected_count s) (accepted_count s) (ev_last s)
    (ev_adjust s) (ev_restart s) (batch_queue s) (init_pending s) (numeval s)
    (feval_budget s) (feval_pending s) (X s) v (Xpend s) (xbest s) (fbest s)
    (fevals s).
Definition set_Xpend (v : matrix) (s : GlobalStrategy) : GlobalStrategy :=
  mkGlobalStrategy (start_time s) (maxeval s) (time_budget s)
    (proposal_counter s) (terminate s) (asynchronous s) (batch_size s)
    (surrogate s) (phase s) (rejected_count s) (accepted_count s) (ev_last s)
    (ev_adjust s) (ev_restart s) (batch_queue s) (init_pending s) (numeval s)
    (feval_budget s) (feval_pending s) (X s) (fX s) v (xbest s) (fbest s)
    (fevals s).
Definition set_fevals (v : list EvalRecord) (s : GlobalStrategy)
  : GlobalStrategy :=
  mkGlobalStrategy (start_time s) (maxeval s) (time_budget s)
    (proposal_counter s) (terminate s) (asynchronous s) (batch_size s)
    (surrogate s) (phase s) (rejected_count s) (accepted_count s) (ev_last s)
    (ev_adjust s) (ev_restart s) (batch_queue s) (init_pending s) (numeval s)
    (feval_budget s) (feval_pending s) (X s) (fX s) (Xpend s) (xbest s)
    (fbest s) v.

(** ** Construction *)

(** [sample_initial]: the design is queued row by row. *)
Definition sample_initial (c : Collaborators) (s : GlobalStrategy)
  : result GlobalStrategy :=
  let s := set_surrogate [] s in                       (* surrogate.reset() *)
  if forallb (fun r => Nat.eqb (length r) (dim c)) (start_sample c) then
    Ok (set_batch_queue (batch_queue s ++ start_sample c) s)
  else Raise AssertionError.

(** [np.abs] of a Python integer.  numpy takes the absolute value in its
    64-bit integer type, where [-2^63] has no positive counterpart and comes
    back as it is; a Python integer too large for 64 bits is kept as a
    Python integer. *)
Definition np_abs (z : Z) : Z :=
  if z =? - 2 ^ 63 then - 2 ^ 63 else Z.abs z.

(** The attribute assignments of [__init__(max_evals, ..., asynchronous,
    batch_size, ...)], made at wall clock [now]: the strategy as it is just
    before [sample_initial] runs. *)
Definition fresh (max_evals : Z) (asynchronous : bool) (batch_size : Z)
    (now : Q) : GlobalStrategy :=
  let maxeval := if max_evals <? 0 then Inf else Fin max_evals in
  let time_budget := if max_evals <? 0 then Fin (np_abs max_evals) else Inf in
  let max_evals := np_abs max_evals in
  {| start_time := now; maxeval := maxeval; time_budget := time_budget;
     proposal_counter := 0; terminate := false;
     asynchronous := asynchronous; batch_size := batch_size;
     surrogate := []; phase := 1; rejected_count := 0;
     accepted_count := 0; ev_last := 0; ev_adjust := 0; ev_restart := 0;
     batch_queue := []; init_pending := 0; numeval := 0;
     feval_budget := max_evals; feval_pending := 0;
     X := []; fX := []; Xpend := []; xbest := None; fbest := Inf;
     fevals := [] |}.

(** [__init__] *)
Definition init (c : Collaborators) (max_evals : Z) (asynchronous : bool)
    (batch_size : Z) (now : Q) : result GlobalStrategy :=
  sample_initial c (fresh max_evals asynchronous batch_size now).

(** ** Checkpointing *)

(** [resume] *)
Definition resume (s : GlobalStrategy) : GlobalStrategy :=
  set_feval_pending 0 s.

(** ** Proposals *)

(** [get_ev] *)
Definition get_ev (s : GlobalStrategy) : Z * GlobalStrategy :=
  let s := set_ev_last (ev_last s + 1) s in
  (ev_last s, s).

(** [make_proposal(x)] *)
Definition make_proposal (x : point) (s : GlobalStrategy)
  : Proposal * GlobalStrategy :=
  let s := set_feval_budget (feval_budget s - 1) s in
  let s := set_feval_pending (feval_pending s + 1) s in
  let '(ev, s) := get_ev s in
  let s := set_Xpend (Xpend s ++ [x]) s in
  ({| args := x; ev_id := ev; pred_val := None; callbacks := [] |}, s).

(** [proposal.add_callback(cb)] *)
Definition add_callback (cb : proposal_callback) (p : Proposal) : Proposal :=
  {| args := args p; ev_id := ev_id p; pred_val := pred_val p;
     callbacks := callbacks p ++ [cb] |}.

(** [proposal.pred_val = v] *)
Definition set_pred_val (v : Q) (p : Proposal) : Proposal :=
  {| args := args p; ev_id := ev_id p; pred_val := Some v;
     callbacks := callbacks p |}.

(** [remove_closest_pending(x)]: [np.where] finds every row of [Xpend]
    equal to [x] and [np.delete] drops them all. *)
Definition remove_closest_pending (x : point) (s : GlobalStrategy)
  : GlobalStrategy :=
  set_Xpend (List.filter (fun row => negb (row_eqb row x)) (Xpend s)) s.

(** *** Initial phase *)

(** [init_proposal] *)
Definition init_proposal (s : GlobalStrategy)
  : result (Proposal * GlobalStrategy) :=
  '(x, q) ← pop (batch_queue s);
  let s := set_batch_queue q s in
  let '(proposal, s) := make_proposal x s in
  let proposal := add_callback cb_on_initial_proposal proposal in
  let s := set_init_pending (init_pending s + 1) s in
  Ok (proposal, s).

(** [on_initial_accepted]; [record] is [proposal.record]. *)
Definition on_initial_accepted (s : GlobalStrategy) (proposal : Proposal)
    (record : EvalRecord) : GlobalStrategy * EvalRecord :=
  let s := set_accepted_count (accepted_count s + 1) s in
  (s, {| params := params record; status := status record;
         rec_ev_id := ev_id proposal; rec_pred_val := None;
         worker_numeval := worker_numeval record;
         feasible := feasible record;
         rec_callbacks := rec_callbacks record ++ [cb_on_initial_update] |}).

(** [on_initial_rejected] *)
Definition on_initial_rejected (s : GlobalStrategy) (proposal : Proposal)
  : GlobalStrategy :=
  let s := set_rejected_count (rejected_count s + 1) s in
  let s := set_feval_budget (feval_budget s + 1) s in
  let s := set_feval_pending (feval_pending s - 1) s in
  let s := set_init_pending (init_pending s - 1) s in
  let xx := args proposal in
  let s := set_batch_queue (batch_queue s ++ [xx]) s in
  let s := set_Xpend (Xpend s ++ [xx]) s in
  remove_closest_pending xx s.

(** [on_initial_proposal]: [Some record] is an accepted proposal with its
    record, [None] a rejected one. *)
Definition on_initial_proposal (s : GlobalStrategy) (proposal : Proposal)
    (accepted : option EvalRecord) : GlobalStrategy * option EvalRecord :=
  match accepted with
  | Some record =>
      let '(s, record) := on_initial_accepted s proposal record in
      (s, Some record)
  | None => (on_initial_rejected s proposal, None)
  end.

(** The part of the two completion handlers that is the same statement
    for statement: the stopping criterion. *)
Definition check_stopping (c : Collaborators) (fx : Q) (s : GlobalStrategy)
  : GlobalStrategy :=
  match stopping_criterion c with
  | Some crit => if crit fx then set_terminate true s else s
  | None => s
  end.

(** [record.worker_numeval = n; record.feasible = True] *)
Definition mark_feasible (n : Z) (record : EvalRecord) : EvalRecord :=
  {| params := params record; status := status record;
     rec_ev_id := rec_ev_id record; rec_pred_val := rec_pred_val record;
     worker_numeval := n; feasible := true;
     rec_callbacks := rec_callbacks record |}.

(** [on_initial_completed]; [fx] is [record.value]. *)
Definition on_initial_completed (c : Collaborators) (s : GlobalStrategy)
    (record : EvalRecord) (fx : Q) : GlobalStrategy :=
  let s := check_stopping c fx s in
  let s := set_numeval (numeval s + 1) s in
  let s := set_feval_pending (feval_pending s - 1) s in
  let s := set_init_pending (init_pending s - 1) s in
  let record := mark_feasible (numeval s) record in
  let xx := params record in
  let s := set_X (X s ++ [xx]) s in
  let s := set_fX (fX s ++ [fx]) s in
  let s := set_surrogate (surrogate s ++ [(xx, fx)]) s in
  let s := remove_closest_pending xx s in
  set_fevals (fevals s ++ [record]) s.

(** [on_initial_aborted] *)
Definition on_initial_aborted (s : GlobalStrategy) (record : EvalRecord)
  : GlobalStrategy :=
  let s := set_feval_budget (feval_budget s + 1) s in
  let s := set_feval_pending (feval_pending s - 1) s in
  let s := set_init_pending (init_pending s - 1) s in
  let xx := params record in
  let s := set_batch_queue (batch_queue s ++ [xx]) s in
  remove_closest_pending xx s.

(** [on_initial_update] *)
Definition on_initial_update (c : Collaborators) (s : GlobalStrategy)
    (record : EvalRecord) : GlobalStrategy :=
  match status record with
  | completed fx => on_initial_completed c s record fx
  | cancelled | killed => on_initial_aborted s record   (* record.is_done *)
  | pending | running => s
  end.

(** *** Adaptive phase *)

(** The sampling radius both adaptive proposers pass. *)
Definition sampling_radius : Q := 2 # 10.

(** [adapt_proposal_async]; the second component is the [npts] of the
    sampler calls made. *)
Definition adapt_proposal_async (c : Collaborators) (s : GlobalStrategy)
  : result (Proposal * GlobalStrategy * list Z) :=
  let s := set_proposal_counter (proposal_counter s + 1) s in
  let x := make_points c 1 (surrogate s) (X s) (fX s) (Xpend s)
             sampling_radius in
  let x := concat x in                                  (* np.ravel *)
  let '(proposal, s) := make_proposal x s in
  let proposal := set_pred_val (surrogate_eval c (surrogate s) x) proposal in
  let proposal := add_callback cb_on_adapt_proposal proposal in
  Ok (proposal, s, [1]).

(** [adapt_proposal_sync] *)
Definition adapt_proposal_sync (c : Collaborators) (s : GlobalStrategy)
  : result (Proposal * GlobalStrategy) :=
  let s := set_proposal_counter (proposal_counter s + 1) s in
  '(x, q) ← pop (batch_queue s);
  let s := set_batch_queue q s in
  let '(proposal, s) := make_proposal x s in
  let proposal := set_pred_val (surrogate_eval c (surrogate s) x) proposal in
  let proposal := add_callback cb_on_adapt_proposal proposal in
  Ok (proposal, s).

(** [make_batch]; the second component is the [npts] of the sampler call. *)
Definition make_batch (c : Collaborators) (s : GlobalStrategy)
  : result (GlobalStrategy * list Z) :=
  let nsamples := min_ext (batch_size s) (ext_sub (maxeval s) (numeval s)) in
  let new_points := make_points c nsamples (surrogate s) (X s) (fX s)
                      (Xpend s) sampling_radius in
  rows ← rows_at new_points (range nsamples);
  Ok (set_batch_queue (batch_queue s ++ rows) s, [nsamples]).

(** [on_adapt_accept] *)
Definition on_adapt_accept (s : GlobalStrategy) (proposal : Proposal)
    (record : EvalRecord) : GlobalStrategy * EvalRecord :=
  let s := set_accepted_count (accepted_count s + 1) s in
  (s, {| params := params record; status := status record;
         rec_ev_id := ev_id proposal; rec_pred_val := pred_val proposal;
         worker_numeval := worker_numeval record;
         feasible := feasible record;
         rec_callbacks := rec_callbacks record ++ [cb_on_adapt_update] |}).

(** [on_adapt_reject].  The handler reads [proposal.params[0]], so it
    raises once the three counters are written; what it returns is the
    strategy as the call leaves it, together with how the call ended. *)
Definition on_adapt_reject (s : GlobalStrategy) (proposal : Proposal)
  : GlobalStrategy * result unit :=
  let s := set_rejected_count (rejected_count s + 1) s in
  let s := set_feval_budget (feval_budget s + 1) s in
  let s := set_feval_pending (feval_pending s - 1) s in
  match proposal_params proposal with
  | Ok xx => (remove_closest_pending xx s, Ok tt)
  | Raise e => (s, Raise e)
  end.

(** [on_adapt_proposal]; an exception of the handler it calls passes
    through. *)
Definition on_adapt_proposal (s : GlobalStrategy) (proposal : Proposal)
    (accepted : option EvalRecord)
  : GlobalStrategy * result (option EvalRecord) :=
  match accepted with
  | Some record =>
      let '(s, record) := on_adapt_accept s proposal record in
      (s, Ok (Some record))
  | None =>
      let '(s, r) := on_adapt_reject s proposal in
      (s, match r with
          | Ok _ => Ok None
          | Raise e => Raise e
          end)
  end.

(** [on_adapt_completed]; [fx] is [record.value]. *)
Definition on_adapt_completed (c : Collaborators) (s : GlobalStrategy)
    (record : EvalRecord) (fx : Q) : GlobalStrategy :=
  let s := check_stopping c fx s in
  let s := set_numeval (numeval s + 1) s in
  let s := set_feval_pending (feval_pending s - 1) s in
  let record := mark_feasible (numeval s) record in
  let xx := params record in
  let s := set_X (X s ++ [xx]) s in
  let s := set_fX (fX s ++ [fx]) s in
  let s := set_surrogate (surrogate s ++ [(xx, fx)]) s in
  let s := remove_closest_pending xx s in
  set_fevals (fevals s ++ [record]) s.

(** [on_adapt_aborted] *)
Definition on_adapt_aborted (s : GlobalStrategy) (record : EvalRecord)
  : GlobalStrategy :=
  let s := set_feval_budget (feval_budget s + 1) s in
  let s := set_feval_pending (feval_pending s - 1) s in
  let xx := params record in
  remove_closest_pending xx s.

(** [on_adapt_update] *)
Definition on_adapt_update (c : Collaborators) (s : GlobalStrategy)
    (record : EvalRecord) : GlobalStrategy :=
  match status record with
  | completed fx => on_adapt_completed c s record fx
  | cancelled | killed => on_adapt_aborted s record     (* record.is_done *)
  | pending | running => s
  end.

(** *** The next action *)

(** The condition of the first [if] of [propose_action]. *)
Definition stopping_condition (s : GlobalStrategy) (current_time : Q) : bool :=
  ge_ext (numeval s) (maxeval s)
  || terminate s
  || time_ge (current_time - start_time s) (time_budget s).

(** What a call of [propose_action] leaves behind: the value returned
    ([None] is Python's [None], no action), the strategy after the call
    and the [npts] of every sampler call made on the way. *)
Record Outcome := mkOutcome {
  proposed : option Action;
  after : GlobalStrategy;
  sampler_npts : list Z
}.

Definition eval_outcome (r : result (Proposal * GlobalStrategy))
  : result Outcome :=
  '(p, s) ← r;
  Ok {| proposed := Some (eval_action p); after := s; sampler_npts := [] |}.

(** [propose_action], called at wall clock [current_time]. *)
Definition propose_action (c : Collaborators) (s : GlobalStrategy)
    (current_time : Q) : result Outcome :=
  if stopping_condition s current_time then
    if feval_pending s =? 0 then
      Ok {| proposed := Some terminate_action; after := s;
            sampler_npts := [] |}
    else Ok {| proposed := None; after := s; sampler_npts := [] |}
  else if asynchronous s then
    match batch_queue s with
    | _ :: _ => eval_outcome (init_proposal s)
    | [] =>
        '(p, s, calls) ← adapt_proposal_async c s;
        Ok {| proposed := Some (eval_action p); after := s;
              sampler_npts := calls |}
    end
  else
    match batch_queue s with
    | _ :: _ =>
        if phase s =? 1 then eval_outcome (init_proposal s)
        else eval_outcome (adapt_proposal_sync c s)
    | [] =>
        if feval_pending s =? 0 then
          let s := set_phase 2 s in
          '(s, calls) ← make_batch c s;
          '(p, s) ← adapt_proposal_sync c s;
          Ok {| proposed := Some (eval_action p); after := s;
                sampler_npts := calls |}
        else Ok {| proposed := None; after := s; sampler_npts := [] |}
    end.

(** ** The checkpoint file *)

(** The files on disk: a pickled strategy per file name.  [dill] is taken
    to write an object that reads back as the same object. *)
Abbreviation files := (gmap string GlobalStrategy).

(** [os.rename(src, dst)] *)
Definition rename (src dst : string) (fs : files) : option files :=
  match fs !! src with
  | Some obj => Some (<[dst := obj]> (delete src fs))
  | None => None
  end.

(** [save(fname)] *)
Definition save (s : GlobalStrategy) (fname : string) (fs : files)
  : option files :=
  let temp_fname := (fname ++ "_temp")%string in
  let fs := <[temp_fname := s]> fs in                   (* dill.dump *)
  rename temp_fname fname fs.

(** Modelled from the spec: reading a checkpoint back is left to the caller
    of [resume] and is not in the repository; it is taken to be [dill.load]
    on the file [save] wrote. *)
Definition load (fname : string) (fs : files) : option GlobalStrategy :=
  fs !! fname.

(** ** The controller

    The POAP controller runs the strategy and is a library of its own, not
    part of the repository.  What the strategy relies on is written out
    here: the controller calls [propose_action]; it answers an eval
    proposal once, by accepting or rejecting it, which runs the callbacks
    of the proposal; an accepted proposal has a record, and the callbacks
    of the record run when the evaluation completes or is killed.  A
    terminate proposal ends the controller's loop; here the events may go
    on after it, which only adds worlds.  An exception raised by a callback
    is not caught by the controller: it ends the run, and the strategy
    stays as the callback left it. *)

(** The strategy together with what the POAP controller holds for it: the
    proposals it has not answered yet, the records of the evaluations in
    flight, the [npts] the sampler has been asked for so far, and the
    exception that has ended the run, if one has. *)
Record World := mkWorld {
  strategy : GlobalStrategy;
  proposals : list Proposal;
  records : list EvalRecord;
  sampler_calls : list Z;
  raised : option exn
}.

Inductive Event :=
| next_action (current_time : Q)   (* the controller asks for work *)
| accept (ev : Z)                  (* proposal.accept() *)
| reject (ev : Z)                  (* proposal.reject() *)
| complete (ev : Z) (value : Q)    (* record.complete(value) *)
| abort (ev : Z).                  (* record.kill() *)

(** The record a freshly accepted proposal gets.  The accept handlers of
    the strategy write [ev_id] and [pred_val] into it, the completion
    handlers [worker_numeval] and [feasible]; until then the record is
    known by the event id of its proposal. *)
Definition new_record (p : Proposal) : EvalRecord :=
  {| params := args p; status := pending; rec_ev_id := ev_id p;
     rec_pred_val := None; worker_numeval := 0; feasible := false;
     rec_callbacks := [] |}.

Definition set_status (st : Status) (r : EvalRecord) : EvalRecord :=
  {| params := params r; status := st; rec_ev_id := rec_ev_id r;
     rec_pred_val := rec_pred_val r; worker_numeval := worker_numeval r;
     feasible := feasible r; rec_callbacks := rec_callbacks r |}.

Definition call_proposal_callback (cb : proposal_callback)
    (s : GlobalStrategy) (p : Proposal) (accepted : option EvalRecord)
  : GlobalStrategy * result (option EvalRecord) :=
  match cb with
  | cb_on_initial_proposal =>
      let '(s, r) := on_initial_proposal s p accepted in (s, Ok r)
  | cb_on_adapt_proposal => on_adapt_proposal s p accepted
  end.

Definition call_record_callback (c : Collaborators) (cb : record_callback)
    (s : GlobalStrategy) (r : EvalRecord) : GlobalStrategy :=
  match cb with
  | cb_on_initial_update => on_initial_update c s r
  | cb_on_adapt_update => on_adapt_update c s r
  end.

(** The callbacks [cbs] in order; the first one that raises ends the
    loop. *)
Fixpoint call_proposal_callbacks (cbs : list proposal_callback)
    (s : GlobalStrategy) (p : Proposal) (accepted : option EvalRecord)
  : GlobalStrategy * result (option EvalRecord) :=
  match cbs with
  | [] => (s, Ok accepted)
  | cb :: cbs' =>
      match call_proposal_callback cb s p accepted with
      | (s, Ok accepted) => call_proposal_callbacks cbs' s p accepted
      | (s, Raise e) => (s, Raise e)
      end
  end.

(** Every callback of the proposal, in the order they were added. *)
Definition answer (s : GlobalStrategy) (p : Proposal)
    (accepted : option EvalRecord)
  : GlobalStrategy * result (option EvalRecord) :=
  call_proposal_callbacks (callbacks p) s p accepted.

(** The exception a call ended with. *)
Definition exception_of {A : Type} (r : result A) : option exn :=
  match r with
  | Ok _ => None
  | Raise e => Some e
  end.

(** Every callback of the record. *)
Definition update (c : Collaborators) (s : GlobalStrategy) (r : EvalRecord)
  : GlobalStrategy :=
  fold_left (fun s cb => call_record_callback c cb s r) (rec_callbacks r) s.

Definition has_ev (ev : Z) (p : Proposal) : bool := ev_id p =? ev.
Definition rec_has_ev (ev : Z) (r : EvalRecord) : bool := rec_ev_id r =? ev.

(** One event delivered to a run that is going on.  [None]: the event is
    not one the controller can deliver (no such proposal or record), or
    [propose_action] raised. *)
Definition deliver (c : Collaborators) (w : World) (e : Event)
  : option World :=
  match e with
  | next_action t =>
      match propose_action c (strategy w) t with
      | Ok o =>
          Some {| strategy := after o;
                  proposals :=
                    match proposed o with
                    | Some (eval_action p) => proposals w ++ [p]
                    | _ => proposals w
                    end;
                  records := records w;
                  sampler_calls := sampler_calls w ++ sampler_npts o;
                  raised := None |}
      | Raise _ => None
      end
  | accept ev =>
      match find (has_ev ev) (proposals w) with
      | Some p =>
          let '(s, r) := answer (strategy w) p (Some (new_record p)) in
          Some {| strategy := s;
                  proposals :=
                    List.filter (fun q => negb (has_ev ev q)) (proposals w);
                  records :=
                    match r with
                    | Ok (Some r) => records w ++ [r]
                    | _ => records w
                    end;
                  sampler_calls := sampler_calls w;
                  raised := exception_of r |}
      | None => None
      end
  | reject ev =>
      match find (has_ev ev) (proposals w) with
      | Some p =>
          let '(s, r) := answer (strategy w) p None in
          Some {| strategy := s;
                  proposals :=
                    List.filter (fun q => negb (has_ev ev q)) (proposals w);
                  records := records w;
                  sampler_calls := sampler_calls w;
                  raised := exception_of r |}
      | None => None
      end
  | complete ev fx =>
      match find (rec_has_ev ev) (records w) with
      | Some r =>
          Some {| strategy :=
                    update c (strategy w) (set_status (completed fx) r);
                  proposals := proposals w;
                  records :=
                    List.filter (fun q => negb (rec_has_ev ev q)) (records w);
                  sampler_calls := sampler_calls w;
                  raised := None |}
      | None => None
      end
  | abort ev =>
      match find (rec_has_ev ev) (records w) with
      | Some r =>
          Some {| strategy := update c (strategy w) (set_status killed r);
                  proposals := proposals w;
                  records :=
                    List.filter (fun q => negb (rec_has_ev ev q)) (records w);
                  sampler_calls := sampler_calls w;
                  raised := None |}
      | None => None
      end
  end.

(** One event.  Once a callback has raised the run is over and no event
    is delivered any more. *)
Definition step (c : Collaborators) (w : World) (e : Event) : option World :=
  match raised w with
  | Some _ => None
  | None => deliver c w e
  end.

(** A sequence of events, oldest first. *)
Fixpoint run (c : Collaborators) (w : World) (es : list Event) : option World :=
  match es with
  | [] => Some w
  | e :: es' =>
      match step c w e with
      | Some w' => run c w' es'
      | None => None
      end
  end.

(** The world right after construction. *)
Definition start (s : GlobalStrategy) : World :=
  {| strategy := s; proposals := []; records := []; sampler_calls := [];
     raised := None |}.

(** The worlds the controller can reach from a strategy constructed with
    the given arguments. *)
Definition reachable (c : Collaborators) (max_evals : Z) (asynchronous : bool)
    (batch_size : Z) (w : World) : Prop :=
  exists now s0 es,
    init c max_evals asynchronous batch_size now = Ok s0
    /\ run c (start s0) es = Some w.

(** * Vocabulary of the properties *)

(** The rows [np.delete] leaves are the rows that differ from [x]. *)
Definition without (x : point) (m : matrix) : matrix :=
  List.filter (fun row => negb (row_eqb row x)) m.

(** How many rows of [m] equal [x]. *)
Definition copies (x : point) (m : matrix) : nat :=
  length (List.filter (fun row => row_eqb row x) m).

(** The three budget counters together. *)
Definition total (s : GlobalStrategy) : Z :=
  feval_budget s + numeval s + feval_pending s.

(** [X] and [fX] have one row per completed evaluation. *)
Definition completed_consistent (s : GlobalStrategy) : Prop :=
  length (X s) = length (fX s) /\ Z.of_nat (length (X s)) = numeval s.

(** The sentinel the constructor leaves in [xbest] and [fbest]. *)
Definition no_best (s : GlobalStrategy) : Prop :=
  xbest s = None /\ fbest s = Inf.

(** Construct and replay a list of events. *)
Definition play (c : Collaborators) (max_evals : Z) (asy : bool) (bs : Z)
    (now : Q) (es : list Event) : option World :=
  match init c max_evals asy bs now with
  | Ok s0 => run c (start s0) es
  | Raise _ => None
  end.

(** A one-dimensional problem whose design is [0.1, 0.9]; the sampler
    answers a request for [n] points with [0.3, 1.3, 2.3, ...]. *)
Definition demo : Collaborators :=
  {| dim := 1;
     start_sample := [[1 # 10]; [9 # 10]]%Q;
     make_points := fun n _ _ _ _ _ =>
       map (fun i => [inject_Z (Z.of_nat i) + (3 # 10)]%Q) (range n);
     surrogate_eval := fun _ _ => 0%Q;
     stopping_criterion := None |}.

(** The same problem with a design that holds the point [0.5] twice. *)
Definition twice : Collaborators :=
  {| dim := 1;
     start_sample := [[1 # 2]; [1 # 2]]%Q;
     make_points := make_points demo;
     surrogate_eval := surrogate_eval demo;
     stopping_criterion := None |}.

(** The conservation law with the evaluation budget the strategy keeps in
    [maxeval]: the configured number, or [np.inf] under a time budget. *)
Definition budget_conserved (s : GlobalStrategy) : Prop :=
  Fin (total s) = maxeval s.

(** What both adaptive handlers do to the strategy when the candidate [x]
    is given up. *)
Definition discards (x : point) (s s' : GlobalStrategy) : Prop :=
  feval_budget s' = feval_budget s + 1
  /\ feval_pending s' = feval_pending s - 1
  /\ Xpend s' = without x (Xpend s)
  /\ Forall (fun row => row_eqb row x = false) (Xpend s')
  /\ batch_queue s' = batch_queue s
  /\ numeval s' = numeval s
  /\ X s' = X s
  /\ fX s' = fX s
  /\ init_pending s' = init_pending s.

(** One terminal event for [x]: every row of [Xpend] equal to [x] goes,
    however many there are, and the pending counter drops by one. *)
Definition removes_every_copy (x : point) (s s' : GlobalStrategy) : Prop :=
  Xpend s' = without x (Xpend s)
  /\ Forall (fun row => row_eqb row x = false) (Xpend s')
  /\ (length (Xpend s') + copies x (Xpend s) = length (Xpend s))%nat
  /\ feval_pending s' = feval_pending s - 1.

(** C7's reading of [resume]: the in-flight bookkeeping, [Xpend]
    included, is reset. *)
Definition in_flight_reset (s : GlobalStrategy) : Prop :=
  feval_pending s = 0 /\ Xpend s = [].

(** C8's reading of the flag: INITIAL only while initial-design
    work is outstanding or queued. *)
Definition initial_only_while_design_left (s : GlobalStrategy) : Prop :=
  phase s = 1 -> 0 < init_pending s \/ batch_queue s <> [].

(** C9's reading of the batch: the point proposed is the first row
    the sampler returned. *)
Definition issues_first_of_batch (c : Collaborators) (s : GlobalStrategy)
    (o : Outcome) : Prop :=
  let n := min_ext (batch_size s) (ext_sub (maxeval s) (numeval s)) in
  exists p, proposed o = Some (eval_action p)
            /\ hd_error (make_points c n (surrogate s) (X s) (fX s) (Xpend s)
                           sampling_radius) = Some (args p).

(** ** What is in flight *)

(** Whether a proposal, or a record, answers to the initial-phase
    handlers. *)
Definition is_initial_proposal (p : Proposal) : bool :=
  match callbacks p with
  | cb_on_initial_proposal :: _ => true
  | _ => false
  end.

Definition is_initial_record (r : EvalRecord) : bool :=
  match rec_callbacks r with
  | cb_on_initial_update :: _ => true
  | _ => false
  end.

(** The event ids and the points of the proposals not answered yet and of
    the evaluations not finished yet. *)
Definition in_flight_ids (w : World) : list Z :=
  map ev_id (proposals w) ++ map rec_ev_id (records w).

Definition in_flight_points (w : World) : matrix :=
  map args (proposals w) ++ map params (records w).

Definition in_flight (w : World) : nat :=
  length (proposals w) + length (records w).

Definition initial_in_flight (w : World) : nat :=
  length (List.filter is_initial_proposal (proposals w))
  + length (List.filter is_initial_record (records w)).

(** No two rows of the matrix are equal. *)
Fixpoint distinct (m : matrix) : bool :=
  match m with
  | [] => true
  | row :: m' => negb (existsb (row_eqb row) m') && distinct m'
  end.

(** Along the run no two points are in flight at the same time that are
    equal. *)
Fixpoint distinct_along (c : Collaborators) (w : World) (es : list Event)
  : bool :=
  distinct (in_flight_points w)
  && match es with
     | [] => true
     | e :: es' =>
         match step c w e with
         | Some w' => distinct_along c w' es'
         | None => true
         end
     end.

(** The bookkeeping of the controller and of the strategy agree: every
    proposal and every record has its one callback, the event ids in
    flight are pairwise different and have been handed out, and the two
    pending counters count what is in flight. *)
Definition in_step (w : World) : Prop :=
  Forall (fun p => length (callbacks p) = 1%nat) (proposals w)
  /\ Forall (fun r => length (rec_callbacks r) = 1%nat) (records w)
  /\ NoDup (in_flight_ids w)
  /\ Forall (fun i => 1 <= i <= ev_last (strategy w)) (in_flight_ids w)
  /\ feval_pending (strategy w) = Z.of_nat (in_flight w)
  /\ init_pending (strategy w) = Z.of_nat (initial_in_flight w)
  /\ ev_last (strategy w)
     = accepted_count (strategy w) + rejected_count (strategy w)
       + Z.of_nat (length (proposals w))
  /\ 0 <= accepted_count (strategy w)
  /\ 0 <= rejected_count (strategy w).

(** What the surrogate and the log of completed records hold, against
    [X] and [fX]. *)
Definition mirrors_completed (s : GlobalStrategy) : Prop :=
  length (X s) = length (fX s)
  /\ Z.of_nat (length (X s)) = numeval s
  /\ surrogate s = combine (X s) (fX s)
  /\ map params (fevals s) = X s
  /\ map status (fevals s) = map completed (fX s)
  /\ map worker_numeval (fevals s)
     = map (fun i => Z.of_nat i) (seq 1 (length (X s)))
  /\ Forall (fun r => feasible r = true) (fevals s).

(** The completed history of [s'] starts with that of [s]. *)
Definition extends_history (s s' : GlobalStrategy) : Prop :=
  (exists rows, X s' = X s ++ rows)
  /\ (exists values, fX s' = fX s ++ values)
  /\ (exists recs, fevals s' = fevals s ++ recs)
  /\ numeval s <= numeval s'.

(** A stopping condition that does not depend on the clock. *)
Definition stopped (s : GlobalStrategy) : Prop :=
  terminate s = true \/ ge_ext (numeval s) (maxeval s) = true.

(** What a terminal handler that runs to its end writes to the counters
    the controller's bookkeeping is compared with; [initial] and
    [rejected] say which of the handlers it is. *)
Definition terminal_effects (x : point) (initial rejected : bool)
    (s s' : GlobalStrategy) : Prop :=
  feval_pending s' = feval_pending s - 1
  /\ init_pending s' = init_pending s - (if initial then 1 else 0)
  /\ Xpend s' = without x (Xpend s)
  /\ ev_last s' = ev_last s
  /\ accepted_count s' = accepted_count s
  /\ rejected_count s' = rejected_count s + (if rejected then 1 else 0).

(** What [on_adapt_reject] has written when it raises. *)
Definition raise_effects (s s' : GlobalStrategy) : Prop :=
  feval_pending s' = feval_pending s - 1
  /\ init_pending s' = init_pending s
  /\ Xpend s' = Xpend s
  /\ ev_last s' = ev_last s
  /\ accepted_count s' = accepted_count s
  /\ rejected_count s' = rejected_count s + 1.

(** What one event does to the world, seen from the controller's lists:
    nothing, a new proposal, a proposal turned into a record, an
    initial-phase proposal rejected, an adaptive-phase proposal rejected
    (which ends the run), or a record finished. *)
Inductive moves (w w' : World) : Prop :=
| move_idle :
    strategy w' = strategy w ->
    proposals w' = proposals w ->
    records w' = records w ->
    sampler_calls w' = sampler_calls w ->
    raised w' = None ->
    moves w w'
| move_propose (p : Proposal) :
    raised w' = None ->
    proposals w' = proposals w ++ [p] ->
    records w' = records w ->
    ev_id p = ev_last (strategy w) + 1 ->
    ev_last (strategy w') = ev_last (strategy w) + 1 ->
    feval_pending (strategy w') = feval_pending (strategy w) + 1 ->
    Xpend (strategy w') = Xpend (strategy w) ++ [args p] ->
    length (callbacks p) = 1%nat ->
    init_pending (strategy w')
    = init_pending (strategy w) + (if is_initial_proposal p then 1 else 0) ->
    accepted_count (strategy w') = accepted_count (strategy w) ->
    rejected_count (strategy w') = rejected_count (strategy w) ->
    moves w w'
| move_accept (p : Proposal) (l1 l2 : list Proposal) (r : EvalRecord) :
    raised w' = None ->
    proposals w = l1 ++ p :: l2 ->
    proposals w' = l1 ++ l2 ->
    records w' = records w ++ [r] ->
    rec_ev_id r = ev_id p ->
    params r = args p ->
    length (rec_callbacks r) = 1%nat ->
    is_initial_record r = is_initial_proposal p ->
    strategy w'
    = set_accepted_count (accepted_count (strategy w) + 1) (strategy w) ->
    moves w w'
| move_reject (p : Proposal) (l1 l2 : list Proposal) :
    raised w' = None ->
    proposals w = l1 ++ p :: l2 ->
    proposals w' = l1 ++ l2 ->
    records w' = records w ->
    is_initial_proposal p = true ->
    terminal_effects (args p) true true (strategy w) (strategy w') ->
    moves w w'
| move_raise (p : Proposal) (l1 l2 : list Proposal) :
    raised w' = Some AttributeError ->
    proposals w = l1 ++ p :: l2 ->
    proposals w' = l1 ++ l2 ->
    records w' = records w ->
    is_initial_proposal p = false ->
    raise_effects (strategy w) (strategy w') ->
    moves w w'
| move_finish (r : EvalRecord) (l1 l2 : list EvalRecord) :
    raised w' = None ->
    records w = l1 ++ r :: l2 ->
    records w' = l1 ++ l2 ->
    proposals w' = proposals w ->
    terminal_effects (params r) (is_initial_record r) false
      (strategy w) (strategy w') ->
    moves w w'.

(** Every row of [Xpend] is the point of something in flight, counted
    with its copies. *)
Definition rows_in_flight (w : World) : Prop :=
  forall x, (copies x (Xpend (strategy w))
             <= copies x (in_flight_points w))%nat.

(** The rows of [Xpend] are the points in flight, counted with their
    copies. *)
Definition rows_are_in_flight (w : World) : Prop :=
  forall x, copies x (Xpend (strategy w)) = copies x (in_flight_points w).

(** The demo problem with a stopping criterion: stop at a value of at most
    0.1. *)
Definition demo_until : Collaborators :=
  {| dim := 1;
     start_sample := start_sample demo;
     make_points := make_points demo;
     surrogate_eval := surrogate_eval demo;
     stopping_criterion := Some (fun fx => Qle_bool fx (1 # 10)) |}.


(** The strategy is in its initial phase under an evaluation budget [m]
    that is not used up, with the terminate flag off. *)
Definition initial_and_running (m : Z) (s : GlobalStrategy) : Prop :=
  terminate s = false /\ time_budget s = Inf /\ maxeval s = Fin m
  /\ numeval s < m /\ phase s = 1.


(** What is in flight belongs to the phase the strategy is in: to the
    initial design while [phase] is 1, to the sampler otherwise. *)
Definition phases_apart (w : World) : Prop :=
  Forall (fun p => is_initial_proposal p = (phase (strategy w) =? 1))
    (proposals w)
  /\ Forall (fun r => is_initial_record r = (phase (strategy w) =? 1))
       (records w).

(** * Properties *)

(** ** Tactics for the methods *)

(** The methods are run call by value on strategies given field by field,
    so that every assignment is carried out before the next one is looked
    at. *)
Ltac open_strategy :=
  repeat match goal with
  | o : Outcome |- _ => destruct o
  | w : World |- _ => destruct w
  | s : GlobalStrategy |- _ => destruct s
  end.

Ltac run_methods :=
  cbv beta iota zeta delta
    [propose_action eval_outcome init_proposal adapt_proposal_sync
     adapt_proposal_async make_batch make_proposal get_ev
     on_initial_proposal on_initial_accepted on_initial_rejected
     on_initial_update on_initial_completed on_initial_aborted
     on_adapt_proposal on_adapt_accept on_adapt_reject proposal_params
     on_adapt_update on_adapt_completed on_adapt_aborted
     check_stopping remove_closest_pending resume
     sample_initial init fresh
     set_proposal_counter set_terminate set_surrogate set_phase
     set_rejected_count set_accepted_count set_ev_last set_batch_queue
     set_init_pending set_numeval set_feval_budget set_feval_pending
     set_X set_fX set_Xpend set_fevals
     start_time maxeval time_budget proposal_counter terminate
     asynchronous batch_size surrogate phase rejected_count
     accepted_count ev_last ev_adjust ev_restart batch_queue init_pending
     numeval feval_budget feval_pending X fX Xpend xbest fbest fevals
     proposed after sampler_npts
     strategy proposals records sampler_calls raised
     mbind result_bind fst snd] in *.

Ltac unfold_methods := open_strategy; run_methods; simpl in *.

(** Case analysis on every test the goal still branches on, innermost
    first. *)
Ltac no_inner_match x :=
  lazymatch x with
  | context [match _ with _ => _ end] => fail
  | _ => idtac
  end.

Ltac split_cases :=
  repeat (match goal with
          | |- context [match ?x with _ => _ end] => is_var x; destruct x
          | |- context [match ?x with _ => _ end] =>
              no_inner_match x; let E := fresh "E" in destruct x eqn:E
          end; simpl in *; try discriminate).

(** A goal about one method call: open the method, split, read off the
    attributes. *)
Ltac method_facts :=
  intros;
  repeat match goal with
  | H : _ /\ _ |- _ => destruct H
  end;
  unfold_methods;
  repeat match goal with
  | H : _ = Ok _ |- _ => revert H
  end;
  split_cases; intros;
  repeat match goal with
  | H : Ok _ = Ok _ |- _ => inversion H; subst; clear H; simpl in *
  end;
  repeat split; simpl in *; try congruence; try lia.

(** A run that is given event by event is computed, and the world it ends
    in takes the place of its name. *)
Ltac concretise H := vm_compute in H; inversion H; subst; clear H.

(** ** Rows *)

Lemma row_eqb_refl (x : point) : row_eqb x x = true.
Proof.
  induction x as [|a x IH]; simpl; [reflexivity|].
  rewrite Qeq_bool_refl, IH. reflexivity.
Qed.

Lemma without_none_left (x : point) (m : matrix) :
  Forall (fun row => row_eqb row x = false) (without x m).
Proof.
  apply List.Forall_forall. intros row Hin.
  apply filter_In in Hin as [_ Hne].
  now apply negb_true_iff in Hne.
Qed.

Lemma without_app_self (x : point) (m : matrix) :
  without x (m ++ [x]) = without x m.
Proof.
  unfold without. rewrite List.filter_app. simpl.
  rewrite row_eqb_refl. simpl. apply app_nil_r.
Qed.

Lemma without_length (x : point) (m : matrix) :
  (length (without x m) + copies x m = length m)%nat.
Proof.
  unfold without, copies.
  induction m as [|row m IH]; simpl; [reflexivity|].
  destruct (row_eqb row x); simpl; lia.
Qed.

(** ** Invariants of the event loop *)

(** A property of the strategy that every method keeps is kept by every
    event, hence holds in every world a run reaches. *)
Section Preservation.
Variable c : Collaborators.
Variable P : GlobalStrategy -> Prop.

Hypothesis P_initial_proposal : forall s p acc,
  P s -> P (fst (on_initial_proposal s p acc)).
Hypothesis P_adapt_proposal : forall s p acc,
  P s -> P (fst (on_adapt_proposal s p acc)).
Hypothesis P_initial_update : forall s r,
  P s -> P (on_initial_update c s r).
Hypothesis P_adapt_update : forall s r,
  P s -> P (on_adapt_update c s r).

Lemma call_proposal_callback_preserves cb s p acc :
  P s -> P (fst (call_proposal_callback cb s p acc)).
Proof.
  intros Hs. destruct cb; simpl.
  - pose proof (P_initial_proposal s p acc Hs) as H.
    destruct (on_initial_proposal s p acc). exact H.
  - auto.
Qed.

Lemma answer_preserves s p acc : P s -> P (fst (answer s p acc)).
Proof.
  unfold answer. generalize (callbacks p) as cbs.
  intros cbs. revert s acc.
  induction cbs as [|cb cbs IH]; intros s acc Hs; simpl; [exact Hs|].
  pose proof (call_proposal_callback_preserves cb s p acc Hs) as H.
  destruct (call_proposal_callback cb s p acc) as [s1 [acc1|e]];
    simpl in *; auto.
Qed.

Lemma update_preserves s r : P s -> P (update c s r).
Proof.
  unfold update. generalize (rec_callbacks r) as cbs.
  intros cbs. revert s.
  induction cbs as [|cb cbs IH]; intros s Hs; simpl; [exact Hs|].
  apply IH. destruct cb; simpl; auto.
Qed.

(** The four answers of the controller keep it by the handlers alone. *)
Lemma answer_event_preserves w e w' :
  (forall t, e <> next_action t) ->
  step c w e = Some w' -> P (strategy w) -> P (strategy w').
Proof.
  intros Hne Hstep Hw. unfold step in Hstep.
  destruct (raised w); [discriminate|].
  destruct e as [t|ev|ev|ev fx|ev]; simpl in Hstep.
  - now destruct (Hne t).
  - destruct (find (has_ev ev) (proposals w)) as [p|]; [|discriminate].
    pose proof (answer_preserves (strategy w) p (Some (new_record p)) Hw)
      as HP.
    destruct (answer (strategy w) p (Some (new_record p))) as [s r].
    inversion Hstep; subst; simpl. exact HP.
  - destruct (find (has_ev ev) (proposals w)) as [p|]; [|discriminate].
    pose proof (answer_preserves (strategy w) p None Hw) as HP.
    destruct (answer (strategy w) p None) as [s r].
    inversion Hstep; subst; simpl. exact HP.
  - destruct (find (rec_has_ev ev) (records w)) as [r|]; [|discriminate].
    inversion Hstep; subst; simpl. now apply update_preserves.
  - destruct (find (rec_has_ev ev) (records w)) as [r|]; [|discriminate].
    inversion Hstep; subst; simpl. now apply update_preserves.
Qed.

Hypothesis P_propose : forall s t o,
  propose_action c s t = Ok o -> P s -> P (after o).

Lemma step_preserves w e w' :
  step c w e = Some w' -> P (strategy w) -> P (strategy w').
Proof.
  intros Hstep Hw. destruct e as [t|ev|ev|ev fx|ev];
    try (eapply answer_event_preserves; eauto; discriminate).
  unfold step in Hstep. destruct (raised w); [discriminate|].
  simpl in Hstep.
  destruct (propose_action c (strategy w) t) as [o|] eqn:E;
    [|discriminate].
  inversion Hstep; subst; simpl. eauto.
Qed.

Lemma run_preserves es : forall w w',
  run c w es = Some w' -> P (strategy w) -> P (strategy w').
Proof.
  induction es as [|e es IH]; intros w w' Hrun Hw; simpl in Hrun.
  - inversion Hrun; subst. exact Hw.
  - destruct (step c w e) as [w1|] eqn:E; [|discriminate].
    eapply IH; [exact Hrun|]. eapply step_preserves; eauto.
Qed.
End Preservation.

(** What construction leaves in the counters. *)
Lemma init_facts c max_evals asy bs now s0 :
  init c max_evals asy bs now = Ok s0 ->
  feval_budget s0 = np_abs max_evals /\ numeval s0 = 0
  /\ feval_pending s0 = 0
  /\ maxeval s0 = (if max_evals <? 0 then Inf else Fin max_evals)
  /\ asynchronous s0 = asy /\ batch_size s0 = bs /\ phase s0 = 1
  /\ X s0 = [] /\ fX s0 = [] /\ Xpend s0 = []
  /\ xbest s0 = None /\ fbest s0 = Inf
  /\ batch_queue s0 = start_sample c /\ init_pending s0 = 0.
Proof.
  run_methods.
  destruct (forallb _ _); [|discriminate].
  intros H; inversion H; subst; clear H; simpl. repeat split.
Qed.

(** *** The three budget counters *)

Lemma total_kept c (k : Z) es w w' :
  run c w es = Some w' -> total (strategy w) = k -> total (strategy w') = k.
Proof.
  apply (run_preserves c (fun s => total s = k)); unfold total;
    method_facts.
Qed.

Lemma maxeval_kept c (m : ext Z) es w w' :
  run c w es = Some w' -> maxeval (strategy w) = m ->
  maxeval (strategy w') = m.
Proof.
  apply (run_preserves c (fun s => maxeval s = m)); method_facts.
Qed.

(** *** The completed evaluations *)

Lemma completed_kept c es w w' :
  run c w es = Some w' -> completed_consistent (strategy w) ->
  completed_consistent (strategy w').
Proof.
  apply (run_preserves c completed_consistent);
    unfold completed_consistent; method_facts;
    rewrite ?length_app in *; simpl; lia.
Qed.

(** *** The best point *)

Lemma no_best_kept c es w w' :
  run c w es = Some w' -> no_best (strategy w) -> no_best (strategy w').
Proof.
  apply (run_preserves c no_best); unfold no_best; method_facts.
Qed.

(** ** Runs from construction *)

Lemma play_reachable c max_evals asy bs now es w :
  play c max_evals asy bs now es = Some w ->
  reachable c max_evals asy bs w.
Proof.
  unfold play, reachable. intros H.
  destruct (init c max_evals asy bs now) as [s0|] eqn:E; [|discriminate].
  exists now, s0, es. split; [exact E | exact H].
Qed.

(** ** Budget conservation *)

(** C1, as stated, fails under a time budget: constructed with
    [max_evals = -5] (five seconds) the strategy has [maxeval = np.inf]
    while its three counters add up to 5. *)
Lemma budget_conserved_time_budget_fails :
  ~ (forall w, reachable demo (-5) true 1 w -> budget_conserved (strategy w)).
Proof.
  intros H.
  destruct (play demo (-5) true 1 0 []) as [w|] eqn:E;
    [|vm_compute in E; discriminate E].
  specialize (H w (play_reachable _ _ _ _ _ _ _ E)).
  concretise E. vm_compute in H. discriminate H.
Qed.

(** At the one 64-bit integer whose absolute value numpy cannot hold the
    counters of a fresh strategy do not add up to the absolute value:
    [feval_budget] is [-2^63]. *)
Lemma construction_wraps_at_int64_min c asy bs now s0 :
  init c (- 2 ^ 63) asy bs now = Ok s0 ->
  feval_budget s0 = - 2 ^ 63 /\ time_budget s0 = Fin (- 2 ^ 63)
  /\ total s0 = - 2 ^ 63 /\ total s0 <> Z.abs (- 2 ^ 63).
Proof.
  intros Hinit.
  assert (Hb : feval_budget s0 = - 2 ^ 63 /\ time_budget s0 = Fin (- 2 ^ 63)
               /\ numeval s0 = 0 /\ feval_pending s0 = 0).
  { revert Hinit. unfold init, sample_initial.
    destruct (forallb _ _); [|discriminate].
    intros H; inversion H; subst; clear H. vm_compute. repeat split. }
  destruct Hb as (Hb & Ht & Hn & Hp).
  unfold total. rewrite Hb, Hn, Hp. repeat split; try assumption.
  vm_compute. discriminate.
Qed.

(** C1 (amended): for a [max_evals] that numpy holds in 64 bits, [-2^63]
    apart, in every world reached from construction by propose, accept,
    reject, complete and abort events,
    [feval_budget + numeval + feval_pending] is the absolute value of the
    configured [max_evals], under an evaluation budget and under a time
    budget alike; under an evaluation budget that is [maxeval]. *)
Theorem budget_conservation c max_evals asy bs w :
  - 2 ^ 63 < max_evals < 2 ^ 63 ->
  reachable c max_evals asy bs w ->
  feval_budget (strategy w) + numeval (strategy w)
    + feval_pending (strategy w) = Z.abs max_evals
  /\ (0 <= max_evals -> budget_conserved (strategy w)).
Proof.
  intros Hrange (now & s0 & es & Hinit & Hrun).
  apply init_facts in Hinit as (Hb & Hn & Hp & Hm & _).
  assert (Habs : np_abs max_evals = Z.abs max_evals).
  { unfold np_abs. destruct (max_evals =? - 2 ^ 63) eqn:E; [lia|reflexivity]. }
  assert (Ht : total (strategy w) = Z.abs max_evals).
  { eapply total_kept; [exact Hrun|]. unfold total. simpl. lia. }
  split; [exact Ht|].
  intros Hpos. unfold budget_conserved.
  rewrite (maxeval_kept _ _ _ _ _ Hrun Hm), Ht.
  destruct (max_evals <? 0) eqn:E; [lia|].
  f_equal. lia.
Qed.

Lemma budget_conservation_witness :
  exists w,
    reachable demo 4 false 2 w
    /\ feval_budget (strategy w) + numeval (strategy w)
         + feval_pending (strategy w) = Z.abs 4
    /\ (0 <= 4 -> budget_conserved (strategy w)).
Proof.
  destruct (play demo 4 false 2 0
              [next_action 1; next_action 1; accept 1; accept 2;
               complete 1 (95 # 100); complete 2 (5 # 100); next_action 2])
    as [w|] eqn:E.
  - exists w. pose proof (play_reachable _ _ _ _ _ _ _ E) as Hr.
    split; [exact Hr|].
    exact (budget_conservation demo 4 false 2 w ltac:(lia) Hr).
  - vm_compute in E. discriminate E.
Defined.

(** ** Pending and completed rows *)

(** C2 at a design that holds the same point twice: both copies are
    proposed, the first is accepted and completes, and [Xpend] is empty
    while one proposal is still outstanding. *)
Theorem pending_rows_lost_with_duplicates :
  exists w,
    play twice 4 true 1 0
      [next_action 1; next_action 1; accept 1; complete 1 (1 # 4)] = Some w
    /\ feval_pending (strategy w) = 1
    /\ length (proposals w) = 1%nat
    /\ Xpend (strategy w) = []
    /\ numeval (strategy w) = 1
    /\ length (X (strategy w)) = 1%nat
    /\ length (fX (strategy w)) = 1%nat.
Proof.
  eexists. split; [vm_compute; reflexivity|].
  vm_compute. repeat split.
Qed.

(** The completed half of C2 holds in every reachable world. *)
Lemma completed_rows c max_evals asy bs w :
  reachable c max_evals asy bs w ->
  length (X (strategy w)) = length (fX (strategy w))
  /\ Z.of_nat (length (X (strategy w))) = numeval (strategy w).
Proof.
  intros (now & s0 & es & Hinit & Hrun).
  apply init_facts in Hinit as (_ & Hn & _ & _ & _ & _ & _ & HX & HfX & _).
  eapply (completed_kept _ _ _ _ Hrun).
  unfold completed_consistent. simpl. rewrite HX, HfX, Hn. split; reflexivity.
Qed.

(** ** Best tracking *)

(** The completion handlers never write [xbest] or [fbest]. *)
Lemma best_never_written c max_evals asy bs w :
  reachable c max_evals asy bs w ->
  xbest (strategy w) = None /\ fbest (strategy w) = Inf.
Proof.
  intros (now & s0 & es & Hinit & Hrun).
  apply init_facts in Hinit
    as (_ & _ & _ & _ & _ & _ & _ & _ & _ & _ & Hx & Hf & _).
  eapply (no_best_kept _ _ _ _ Hrun). split; assumption.
Qed.

(** C3 at the first completion of the demo run: the point [0.9] completes
    with value [0.95], and [fbest] is still [np.inf], [xbest] still
    [None]. *)
Theorem best_not_tracked_after_completion :
  exists w,
    play demo 4 false 2 0 [next_action 1; accept 1; complete 1 (95 # 100)]
      = Some w
    /\ X (strategy w) = [[9 # 10]]%Q
    /\ fX (strategy w) = [95 # 100]%Q
    /\ fbest (strategy w) = Inf
    /\ xbest (strategy w) = None.
Proof.
  eexists. split; [vm_compute; reflexivity|].
  vm_compute. repeat split.
Qed.

(** ** Termination *)

Lemma stopping_condition_iff s t :
  stopping_condition s t = true <->
  (exists k, maxeval s = Fin k /\ k <= numeval s)
  \/ terminate s = true
  \/ (exists k, time_budget s = Fin k
               /\ (inject_Z k <= t - start_time s)%Q).
Proof.
  unfold stopping_condition, ge_ext, time_ge.
  rewrite !orb_true_iff. split.
  - intros [[H|H]|H].
    + left. destruct (maxeval s) as [k|]; [|discriminate].
      exists k. split; [reflexivity | lia].
    + right. left. exact H.
    + right. right. destruct (time_budget s) as [k|]; [|discriminate].
      exists k. split; [reflexivity | now apply Qle_bool_iff].
  - intros [(k & Hk & Hle)|[H|(k & Hk & Hle)]].
    + left. left. rewrite Hk. lia.
    + left. right. exact H.
    + right. rewrite Hk. now apply Qle_bool_iff.
Qed.

(** Outside the stopping branch every action is an evaluation. *)
Lemma propose_eval_when_running c s t o :
  stopping_condition s t = false ->
  propose_action c s t = Ok o -> proposed o <> Some terminate_action.
Proof.
  intros Hstop. unfold propose_action. rewrite Hstop.
  method_facts.
Qed.

(** C4: [propose_action] answers a stopping condition (the evaluation
    budget is used up, the terminate flag is set, or the time budget has
    elapsed) with a terminate proposal when nothing is pending and with no
    action, leaving the strategy as it is, when something is; and it
    proposes to terminate only with a stopping condition and nothing
    pending. *)
Theorem termination_safety c s t :
  (stopping_condition s t = true ->
   propose_action c s t =
     Ok {| proposed := if feval_pending s =? 0 then Some terminate_action
                       else None;
           after := s; sampler_npts := [] |})
  /\ (forall o, propose_action c s t = Ok o ->
        proposed o = Some terminate_action ->
        feval_pending s = 0
        /\ ((exists k, maxeval s = Fin k /\ k <= numeval s)
            \/ terminate s = true
            \/ (exists k, time_budget s = Fin k
                         /\ (inject_Z k <= t - start_time s)%Q))).
Proof.
  split.
  - intros Hstop. unfold propose_action. rewrite Hstop.
    destruct (feval_pending s =? 0); reflexivity.
  - intros o Hcall Hterm.
    destruct (stopping_condition s t) eqn:Hstop.
    + split; [|now apply stopping_condition_iff].
      unfold propose_action in Hcall. rewrite Hstop in Hcall.
      destruct (feval_pending s =? 0) eqn:Hp; [lia|].
      inversion Hcall; subst. discriminate Hterm.
    + exfalso. eapply propose_eval_when_running; eauto.
Qed.

Lemma termination_safety_witness :
  let done := set_numeval 4 (fresh 4 false 2 0) in
  propose_action demo done 9 =
    Ok {| proposed := if feval_pending done =? 0 then Some terminate_action
                      else None;
          after := done; sampler_npts := [] |}
  /\ feval_pending done = 0
  /\ ((exists k, maxeval done = Fin k /\ k <= numeval done)
      \/ terminate done = true
      \/ (exists k, time_budget done = Fin k
                   /\ (inject_Z k <= 9 - start_time done)%Q)).
Proof.
  intros done. split.
  - apply (proj1 (termination_safety demo done 9)). reflexivity.
  - apply (proj2 (termination_safety demo done 9)
             {| proposed := Some terminate_action; after := done;
                sampler_npts := [] |}); reflexivity.
Defined.

(** ** Rejection in the initial phase *)

Lemma pop_app (q : list point) (x : point) : pop (q ++ [x]) = Ok (x, q).
Proof.
  unfold pop. rewrite rev_app_distr. simpl. now rewrite rev_involutive.
Qed.

Lemma pop_Ok (q r : list point) (x : point) :
  pop q = Ok (x, r) -> q = r ++ [x].
Proof.
  unfold pop. intros H.
  destruct (rev q) as [|y l] eqn:E; [discriminate|].
  inversion H; subst; clear H.
  rewrite <- (rev_involutive q), E. reflexivity.
Qed.

(** What [init_proposal] does to the counters, the queue and [Xpend]. *)
Lemma init_proposal_facts s0 p s :
  init_proposal s0 = Ok (p, s) ->
  batch_queue s0 = batch_queue s ++ [args p]
  /\ feval_budget s = feval_budget s0 - 1
  /\ feval_pending s = feval_pending s0 + 1
  /\ init_pending s = init_pending s0 + 1
  /\ Xpend s = Xpend s0 ++ [args p]
  /\ ev_id p = ev_last s0 + 1
  /\ callbacks p = [cb_on_initial_proposal].
Proof.
  unfold init_proposal, mbind, result_bind.
  destruct (pop (batch_queue s0)) as [[y q]|] eqn:E; [|discriminate].
  apply pop_Ok in E. revert E. method_facts.
Qed.

(** What [on_initial_rejected] writes. *)
Lemma on_initial_rejected_facts s proposal :
  rejected_count (on_initial_rejected s proposal) = rejected_count s + 1
  /\ feval_budget (on_initial_rejected s proposal) = feval_budget s + 1
  /\ feval_pending (on_initial_rejected s proposal) = feval_pending s - 1
  /\ init_pending (on_initial_rejected s proposal) = init_pending s - 1
  /\ batch_queue (on_initial_rejected s proposal)
     = batch_queue s ++ [args proposal]
  /\ Xpend (on_initial_rejected s proposal)
     = without (args proposal) (Xpend s ++ [args proposal]).
Proof. method_facts. Qed.

(** C5: rejecting an initial-phase proposal of [x] counts the rejection,
    gives the unit of budget back, takes the proposal out of both pending
    counters, appends [x] to [batch_queue] and leaves no row equal to [x]
    in [Xpend]; right after the proposal was made, the budget, the pending
    counters and the queue are back where they were before it. *)
Theorem initial_rejection s proposal :
  let x := args proposal in
  let s' := fst (on_initial_proposal s proposal None) in
  rejected_count s' = rejected_count s + 1
  /\ feval_budget s' = feval_budget s + 1
  /\ feval_pending s' = feval_pending s - 1
  /\ init_pending s' = init_pending s - 1
  /\ batch_queue s' = batch_queue s ++ [x]
  /\ Xpend s' = without x (Xpend s)
  /\ Forall (fun row => row_eqb row x = false) (Xpend s')
  /\ (forall s0, init_proposal s0 = Ok (proposal, s) ->
        In x (batch_queue s0)
        /\ feval_budget s' = feval_budget s0
        /\ feval_pending s' = feval_pending s0
        /\ init_pending s' = init_pending s0
        /\ batch_queue s' = batch_queue s0).
Proof.
  intros x s'.
  change s' with (on_initial_rejected s proposal).
  destruct (on_initial_rejected_facts s proposal)
    as (Hr & Hb & Hp & Hi & Hq & HX).
  rewrite without_app_self in HX. fold x in Hq, HX.
  repeat (split; [assumption|]).
  split; [rewrite HX; apply without_none_left|].
  intros s0 Hinit.
  apply init_proposal_facts in Hinit as (Hq0 & Hb0 & Hp0 & Hi0 & _).
  fold x in Hq0.
  repeat split; try lia.
  - rewrite Hq0. apply in_or_app. right. left. reflexivity.
  - congruence.
Qed.

Lemma initial_rejection_witness :
  let s0 := set_batch_queue [[1 # 2]]%Q (fresh 4 true 1 0) in
  exists p s,
    init_proposal s0 = Ok (p, s)
    /\ In (args p) (batch_queue s0)
    /\ feval_budget (fst (on_initial_proposal s p None)) = feval_budget s0
    /\ feval_pending (fst (on_initial_proposal s p None)) = feval_pending s0
    /\ init_pending (fst (on_initial_proposal s p None)) = init_pending s0
    /\ batch_queue (fst (on_initial_proposal s p None)) = batch_queue s0.
Proof.
  intros s0.
  destruct (init_proposal s0) as [[p s]|] eqn:E;
    [|vm_compute in E; discriminate E].
  exists p, s. split; [reflexivity|].
  destruct (initial_rejection s p) as (_ & _ & _ & _ & _ & _ & _ & Hback).
  exact (Hback s0 E).
Defined.

(** ** Abort and rejection in the adaptive phase *)

(** The aborted half of C6: an adaptive-phase evaluation of [x] that is
    killed or cancelled gets its unit of budget back, leaves the pending
    counter, and has every row equal to [x] taken out of [Xpend]; [x] is
    not queued again and [numeval], [X] and [fX] stay as they are. *)
Lemma adaptive_abort_discards c s record :
  on_adapt_update c s (set_status killed record) = on_adapt_aborted s record
  /\ on_adapt_update c s (set_status cancelled record)
     = on_adapt_aborted s record
  /\ discards (params record) s (on_adapt_aborted s record)
  /\ rejected_count (on_adapt_aborted s record) = rejected_count s.
Proof.
  repeat split; try (unfold_methods; lia).
  apply without_none_left.
Qed.

(** The rejected half: [on_adapt_reject] writes its three counters and
    then raises on [proposal.params]; [remove_closest_pending] is not
    reached, so [Xpend] is as it was, whatever the strategy and the
    proposal. *)
Lemma on_adapt_reject_raises s proposal :
  exists s',
    on_adapt_reject s proposal = (s', Raise AttributeError)
    /\ on_adapt_proposal s proposal None = (s', Raise AttributeError)
    /\ rejected_count s' = rejected_count s + 1
    /\ feval_budget s' = feval_budget s + 1
    /\ feval_pending s' = feval_pending s - 1
    /\ Xpend s' = Xpend s
    /\ batch_queue s' = batch_queue s
    /\ numeval s' = numeval s
    /\ X s' = X s
    /\ fX s' = fX s.
Proof.
  eexists. split; [reflexivity|]. split; [reflexivity|].
  unfold_methods. repeat split.
Qed.

(** C6 at a rejection.  The design has completed, the next proposal is the
    adaptive point [0.3] with event id 3, and the controller rejects it:
    the rejection is counted, the unit of budget is back and the pending
    counter is 0, but the call ends in [AttributeError] and [0.3] is still
    a row of [Xpend]. *)
Theorem adaptive_rejection_keeps_row :
  exists w,
    play demo 4 true 1 0
      [next_action 1; next_action 1; accept 1; accept 2;
       complete 1 (95 # 100); complete 2 (5 # 100);
       next_action 2; reject 3] = Some w
    /\ raised w = Some AttributeError
    /\ proposals w = []
    /\ Xpend (strategy w) = [[3 # 10]]%Q
    /\ rejected_count (strategy w) = 1
    /\ feval_budget (strategy w) = 2
    /\ feval_pending (strategy w) = 0
    /\ numeval (strategy w) = 2.
Proof.
  eexists. split; [vm_compute; reflexivity|].
  vm_compute. repeat split.
Qed.

(** ** Every copy of a point leaves [Xpend] at once *)

Lemma removes_every_copy_intro x s s' :
  Xpend s' = without x (Xpend s) ->
  feval_pending s' = feval_pending s - 1 ->
  removes_every_copy x s s'.
Proof.
  intros HX Hp. unfold removes_every_copy. rewrite HX.
  repeat split; [apply without_none_left | apply without_length | exact Hp].
Qed.

(** Five of the six terminal handlers (rejection in the initial phase,
    completion and abortion in both phases) delete every row of [Xpend]
    that equals the point of the event, so that none is left, and take one
    off [feval_pending]: as many rows go as there were copies, while the
    counter drops by one. *)
Lemma terminal_handlers_remove_every_copy c s :
  (forall p, removes_every_copy (args p) s (on_initial_rejected s p))
  /\ (forall r fx,
        removes_every_copy (params r) s (on_initial_completed c s r fx))
  /\ (forall r, removes_every_copy (params r) s (on_initial_aborted s r))
  /\ (forall r fx,
        removes_every_copy (params r) s (on_adapt_completed c s r fx))
  /\ (forall r, removes_every_copy (params r) s (on_adapt_aborted s r)).
Proof.
  split; [|split; [|split; [|split]]]; intros;
    apply removes_every_copy_intro; try (method_facts; fail).
  destruct (on_initial_rejected_facts s p) as (_ & _ & _ & _ & _ & HX).
  rewrite HX. apply without_app_self.
Qed.

(** C10 at the sixth handler.  Two adaptive proposals of the same point
    [0.3] are pending (event ids 3 and 4) and the first is rejected:
    [feval_pending] drops to 1, the call ends in [AttributeError], and
    both rows equal to [0.3] are still in [Xpend]. *)
Theorem adaptive_rejection_keeps_every_copy :
  exists w,
    play demo 4 true 1 0
      [next_action 1; next_action 1; accept 1; accept 2;
       complete 1 (95 # 100); complete 2 (5 # 100);
       next_action 2; next_action 2; reject 3] = Some w
    /\ raised w = Some AttributeError
    /\ map ev_id (proposals w) = [4]
    /\ Xpend (strategy w) = [[3 # 10]; [3 # 10]]%Q
    /\ copies [3 # 10]%Q (Xpend (strategy w)) = 2%nat
    /\ feval_pending (strategy w) = 1.
Proof.
  eexists. split; [vm_compute; reflexivity|].
  vm_compute. repeat split.
Qed.

(** Two pending copies of [0.5]: one completion empties [Xpend]. *)
Example two_copies_one_completion :
  let s := set_feval_pending 2
             (set_Xpend [[1 # 2]; [1 # 2]]%Q (fresh 4 true 1 0)) in
  let s' := on_initial_completed twice s
              (new_record (mkProposal [1 # 2]%Q 1 None [])) (1 # 4) in
  Xpend s' = [] /\ feval_pending s' = 1.
Proof. vm_compute. split; reflexivity. Qed.

(** ** Checkpoints *)

Lemma length_append (a b : string) :
  String.length (a ++ b) = (String.length a + String.length b)%nat.
Proof. induction a as [|ch a IH]; simpl; [reflexivity | now rewrite IH]. Qed.

Lemma temp_name_differs (fname : string) : (fname ++ "_temp")%string <> fname.
Proof.
  intros H. apply (f_equal String.length) in H.
  rewrite length_append in H. simpl in H. lia.
Qed.

(** [save] leaves the strategy under [fname] and no temporary file. *)
Lemma save_load s fname (fs : files) :
  exists fs', save s fname fs = Some fs'
              /\ load fname fs' = Some s
              /\ fs' !! (fname ++ "_temp")%string = None.
Proof.
  unfold save, rename, load.
  rewrite lookup_insert_eq. eexists. split; [reflexivity|].
  rewrite lookup_insert_eq. split; [reflexivity|].
  rewrite lookup_insert_ne by (intros H; symmetry in H;
                               exact (temp_name_differs fname H)).
  apply lookup_delete_eq.
Qed.

(** C7, as stated, fails on a checkpoint taken with a proposal in flight:
    the strategy read back and resumed has [feval_pending = 0] and still
    the pending row in [Xpend] (and [init_pending = 1]). *)
Lemma resume_keeps_Xpend :
  exists w fs s,
    play demo 4 true 1 0 [next_action 1] = Some w
    /\ save (strategy w) "run.ckpt" ∅ = Some fs
    /\ load "run.ckpt" fs = Some s
    /\ feval_pending (resume s) = 0
    /\ Xpend (resume s) = [[9 # 10]]%Q
    /\ init_pending (resume s) = 1
    /\ ~ in_flight_reset (resume s).
Proof.
  destruct (play demo 4 true 1 0 [next_action 1]) as [w|] eqn:E;
    [|vm_compute in E; discriminate E].
  destruct (save_load (strategy w) "run.ckpt" ∅) as (fs & Hs & Hl & _).
  exists w, fs, (strategy w). vm_compute in E. inversion E; subst; clear E.
  repeat split; try assumption.
  intros [_ H]. vm_compute in H. discriminate H.
Qed.

(** C7 (amended): a saved strategy reads back as it was saved, and
    [resume] sets [feval_pending] to 0 and writes nothing else: [X], [fX],
    [numeval], [feval_budget], [xbest] and [fbest] are those of the saved
    strategy, and so are [Xpend], [init_pending] and [batch_queue]. *)
Theorem checkpoint_round_trip s fname (fs : files) :
  exists fs',
    save s fname fs = Some fs'
    /\ load fname fs' = Some s
    /\ resume s = set_feval_pending 0 s
    /\ feval_pending (resume s) = 0
    /\ X (resume s) = X s
    /\ fX (resume s) = fX s
    /\ numeval (resume s) = numeval s
    /\ feval_budget (resume s) = feval_budget s
    /\ xbest (resume s) = xbest s
    /\ fbest (resume s) = fbest s
    /\ fevals (resume s) = fevals s
    /\ Xpend (resume s) = Xpend s
    /\ init_pending (resume s) = init_pending s
    /\ batch_queue (resume s) = batch_queue s.
Proof.
  destruct (save_load s fname fs) as (fs' & Hs & Hl & _).
  exists fs'. repeat split; assumption || reflexivity.
Qed.

(** ** The phase flag *)

(** Only the synchronous branch of [propose_action] that finds the queue
    empty and nothing pending writes [phase], and it writes 2. *)
Lemma propose_phase c s t o :
  propose_action c s t = Ok o ->
  phase (after o) = phase s
  \/ (phase (after o) = 2 /\ asynchronous s = false /\ batch_queue s = []
      /\ feval_pending s = 0 /\ stopping_condition s t = false).
Proof.
  unfold propose_action.
  destruct (stopping_condition s t) eqn:Hstop;
    [destruct (feval_pending s =? 0); intros H; inversion H; now left|].
  destruct (asynchronous s) eqn:Hasy.
  - intros H. left. revert H. clear. method_facts.
  - destruct (batch_queue s) as [|x q] eqn:Hq.
    + destruct (feval_pending s =? 0) eqn:Hp.
      * intros H. right.
        assert (phase (after o) = 2) by (revert H; clear; method_facts).
        repeat split; try assumption. lia.
      * intros H; inversion H; now left.
    + intros H. left. revert H. clear. method_facts.
Qed.

Lemma phase_kept_by_answers c w e w' :
  (forall t, e <> next_action t) ->
  step c w e = Some w' -> phase (strategy w') = phase (strategy w).
Proof.
  intros Hne Hstep.
  apply (answer_event_preserves c
           (fun s => phase s = phase (strategy w)) ) with (w := w) (e := e);
    try assumption; try reflexivity; method_facts.
Qed.

Lemma adaptive_kept c es w w' :
  run c w es = Some w' -> phase (strategy w) = 2 -> phase (strategy w') = 2.
Proof.
  apply (run_preserves c (fun s => phase s = 2)); method_facts.
Qed.

Lemma asynchronous_initial_kept c es w w' :
  run c w es = Some w' ->
  asynchronous (strategy w) = true /\ phase (strategy w) = 1 ->
  asynchronous (strategy w') = true /\ phase (strategy w') = 1.
Proof.
  apply (run_preserves c (fun s => asynchronous s = true /\ phase s = 1));
    method_facts.
Qed.

Lemma phase_range_kept c es w w' :
  run c w es = Some w' ->
  phase (strategy w) = 1 \/ phase (strategy w) = 2 ->
  phase (strategy w') = 1 \/ phase (strategy w') = 2.
Proof.
  apply (run_preserves c (fun s => phase s = 1 \/ phase s = 2));
    method_facts.
Qed.

(** C8, as stated, fails in both modes.  In synchronous mode, when both
    design points have completed, [init_pending] is 0, [batch_queue] is
    empty and [phase] is still 1: it is the next [propose_action] that
    writes 2.  In asynchronous mode the same holds after an adaptive point
    has been proposed as well. *)
Lemma phase_initial_after_design_exhausted :
  ~ (forall w, reachable demo 4 false 2 w ->
               initial_only_while_design_left (strategy w))
  /\ ~ (forall w, reachable demo 4 true 1 w ->
                  initial_only_while_design_left (strategy w)).
Proof.
  split; intros H.
  - destruct (play demo 4 false 2 0
                [next_action 1; next_action 1; accept 1; accept 2;
                 complete 1 (95 # 100); complete 2 (5 # 100)])
      as [w|] eqn:E; [|vm_compute in E; discriminate E].
    specialize (H w (play_reachable _ _ _ _ _ _ _ E)).
    concretise E.
    destruct (H eq_refl) as [Hp|Hq].
    + vm_compute in Hp. discriminate Hp.
    + apply Hq. reflexivity.
  - destruct (play demo 4 true 1 0
                [next_action 1; next_action 1; accept 1; accept 2;
                 complete 1 (95 # 100); complete 2 (5 # 100);
                 next_action 2])
      as [w|] eqn:E; [|vm_compute in E; discriminate E].
    specialize (H w (play_reachable _ _ _ _ _ _ _ E)).
    concretise E.
    destruct (H eq_refl) as [Hp|Hq].
    + vm_compute in Hp. discriminate Hp.
    + apply Hq. reflexivity.
Qed.

(** C8 (amended): [phase] is 1 or 2; an event changes it only when it is a
    [propose_action] call in synchronous mode that finds no stopping
    condition, an empty [batch_queue] and [feval_pending = 0], and then it
    becomes 2 (ADAPTIVE); once 2 it stays 2; in asynchronous mode it is
    never written and stays 1 (INITIAL). *)
Theorem phase_transition c :
  (forall w e w',
     step c w e = Some w' ->
     phase (strategy w') <> phase (strategy w) ->
     phase (strategy w') = 2
     /\ asynchronous (strategy w) = false
     /\ batch_queue (strategy w) = []
     /\ feval_pending (strategy w) = 0
     /\ exists t, e = next_action t
                  /\ stopping_condition (strategy w) t = false)
  /\ (forall w es w',
        run c w es = Some w' ->
        phase (strategy w) = 2 -> phase (strategy w') = 2)
  /\ (forall max_evals asy bs w,
        reachable c max_evals asy bs w ->
        (phase (strategy w) = 1 \/ phase (strategy w) = 2)
        /\ (asy = true -> phase (strategy w) = 1)).
Proof.
  split; [|split].
  - intros w e w' Hstep Hne.
    destruct e as [t|ev|ev|ev fx|ev];
      try (exfalso; apply Hne;
           eapply phase_kept_by_answers; eauto; discriminate).
    unfold step in Hstep. destruct (raised w); [discriminate|].
    simpl in Hstep.
    destruct (propose_action c (strategy w) t) as [o|] eqn:E;
      [|discriminate].
    inversion Hstep; subst; clear Hstep. simpl in *.
    destruct (propose_phase c _ _ _ E) as [H|(H2 & Ha & Hq & Hp & Hs)];
      [contradiction|].
    repeat split; try assumption. exists t. split; [reflexivity | exact Hs].
  - intros w es w'. apply adaptive_kept.
  - intros max_evals asy bs w (now & s0 & es & Hinit & Hrun).
    apply init_facts in Hinit
      as (_ & _ & _ & _ & Ha & _ & Hph & _).
    split.
    + eapply phase_range_kept; [exact Hrun|]. now left.
    + intros ->. eapply asynchronous_initial_kept; [exact Hrun|].
      simpl. split; assumption.
Qed.

Lemma phase_transition_witness :
  exists w w' w'' v,
    reachable demo 4 false 2 w
    /\ step demo w (next_action 2) = Some w'
    /\ (phase (strategy w') = 2
        /\ asynchronous (strategy w) = false
        /\ batch_queue (strategy w) = []
        /\ feval_pending (strategy w) = 0
        /\ exists t, next_action 2 = next_action t
                     /\ stopping_condition (strategy w) t = false)
    /\ run demo w' [accept 3; complete 3 1] = Some w''
    /\ phase (strategy w'') = 2
    /\ reachable demo 4 true 1 v
    /\ (phase (strategy v) = 1 \/ phase (strategy v) = 2)
    /\ phase (strategy v) = 1.
Proof.
  destruct (play demo 4 false 2 0
              [next_action 1; next_action 1; accept 1; accept 2;
               complete 1 (95 # 100); complete 2 (5 # 100)])
    as [w|] eqn:E; [|vm_compute in E; discriminate E].
  destruct (step demo w (next_action 2)) as [w'|] eqn:E1;
    [|exfalso; concretise E; vm_compute in E1; discriminate E1].
  destruct (run demo w' [accept 3; complete 3 1]) as [w''|] eqn:E2;
    [|exfalso; concretise E; concretise E1; vm_compute in E2;
      discriminate E2].
  destruct (play demo 4 true 1 0
              [next_action 1; next_action 1; accept 1; accept 2;
               complete 1 (95 # 100); complete 2 (5 # 100); next_action 2])
    as [v|] eqn:E3; [|vm_compute in E3; discriminate E3].
  pose proof (play_reachable _ _ _ _ _ _ _ E) as Hr.
  pose proof (play_reachable _ _ _ _ _ _ _ E3) as Hv.
  destruct (phase_transition demo) as (Hchange & Hstay & Hreach).
  assert (Hne : phase (strategy w') <> phase (strategy w)).
  { concretise E. concretise E1. vm_compute. discriminate. }
  pose proof (Hchange w (next_action 2) w' E1 Hne) as Hc.
  exists w, w', w'', v.
  split; [exact Hr|]. split; [exact E1|]. split; [exact Hc|].
  split; [exact E2|].
  split; [exact (Hstay w' _ w'' E2 (proj1 Hc))|].
  split; [exact Hv|].
  destruct (Hreach 4 true 1 v Hv) as [Hrange Hasync].
  split; [exact Hrange | exact (Hasync eq_refl)].
Defined.

(** ** The synchronous batch *)

Lemma rows_at_seq (m : matrix) (n : nat) : forall k,
  (k + n <= length m)%nat ->
  rows_at m (seq k n) = Ok (firstn n (skipn k m)).
Proof.
  induction n as [|n IH]; intros k Hk; simpl; [reflexivity|].
  unfold row_at.
  destruct (nth_error m k) as [r|] eqn:E.
  - unfold mbind, result_bind. rewrite IH by lia.
    f_equal. clear IH. revert m Hk E.
    induction k as [|k IHk]; intros m Hk E.
    + destruct m as [|r0 m]; simpl in *; [discriminate|].
      inversion E; subst. reflexivity.
    + destruct m as [|r0 m]; simpl in *; [discriminate|].
      apply IHk; [lia | exact E].
  - apply nth_error_None in E. lia.
Qed.

Lemma rows_at_range (m : matrix) (n : Z) :
  (Z.to_nat n <= length m)%nat ->
  rows_at m (range n) = Ok (firstn (Z.to_nat n) m).
Proof.
  intros H. unfold range. rewrite rows_at_seq by lia. reflexivity.
Qed.

Lemma firstn_snoc (m : matrix) : forall (k : nat) (x : point),
  nth_error m k = Some x -> firstn (S k) m = firstn k m ++ [x].
Proof.
  induction m as [|r m IH]; intros k x H.
  - destruct k; discriminate.
  - destruct k as [|k]; simpl in *.
    + inversion H; subst. reflexivity.
    + f_equal. now apply IH.
Qed.

(** The size of the batch when no stopping condition holds. *)
Lemma batch_positive s t :
  stopping_condition s t = false -> 1 <= batch_size s ->
  1 <= min_ext (batch_size s) (ext_sub (maxeval s) (numeval s)).
Proof.
  unfold stopping_condition, ge_ext, min_ext, ext_sub.
  intros Hstop Hb.
  apply orb_false_iff in Hstop as [Hstop _].
  apply orb_false_iff in Hstop as [Hstop _].
  destruct (maxeval s) as [k|]; [|exact Hb].
  destruct (k - numeval s <? batch_size s); lia.
Qed.

(** The sampler requests of one [propose_action] call. *)
Lemma propose_requests c s t o :
  propose_action c s t = Ok o ->
  asynchronous s = true \/ 1 <= batch_size s ->
  Forall (fun n => 1 <= n) (sampler_npts o).
Proof.
  unfold propose_action.
  destruct (stopping_condition s t) eqn:Hstop.
  - destruct (feval_pending s =? 0); intros H _; inversion H; constructor.
  - destruct (asynchronous s) eqn:Hasy.
    + intros H _. revert H. method_facts;
        repeat constructor; lia.
    + intros H [Ha|Hb]; [discriminate|].
      pose proof (batch_positive s t Hstop Hb) as Hn.
      revert H. method_facts; repeat constructor; assumption.
Qed.

Lemma configuration_kept c asy bs es w w' :
  run c w es = Some w' ->
  asynchronous (strategy w) = asy /\ batch_size (strategy w) = bs ->
  asynchronous (strategy w') = asy /\ batch_size (strategy w') = bs.
Proof.
  apply (run_preserves c
           (fun s => asynchronous s = asy /\ batch_size s = bs));
    method_facts.
Qed.

Lemma step_requests c w e w' :
  step c w e = Some w' ->
  asynchronous (strategy w) = true \/ 1 <= batch_size (strategy w) ->
  Forall (fun n => 1 <= n) (sampler_calls w) ->
  Forall (fun n => 1 <= n) (sampler_calls w').
Proof.
  intros Hstep Hcfg Hw. unfold step in Hstep.
  destruct (raised w); [discriminate|].
  destruct e as [t|ev|ev|ev fx|ev]; simpl in Hstep.
  - destruct (propose_action c (strategy w) t) as [o|] eqn:E;
      [|discriminate].
    inversion Hstep; subst; simpl.
    apply Forall_app. split; [exact Hw|].
    eapply propose_requests; eauto.
  - destruct (find (has_ev ev) (proposals w)) as [p|]; [|discriminate].
    destruct (answer (strategy w) p (Some (new_record p))) as [s r].
    inversion Hstep; subst; simpl. exact Hw.
  - destruct (find (has_ev ev) (proposals w)) as [p|]; [|discriminate].
    destruct (answer (strategy w) p None) as [s r].
    inversion Hstep; subst; simpl. exact Hw.
  - destruct (find (rec_has_ev ev) (records w)) as [r|]; [|discriminate].
    inversion Hstep; subst; simpl. exact Hw.
  - destruct (find (rec_has_ev ev) (records w)) as [r|]; [|discriminate].
    inversion Hstep; subst; simpl. exact Hw.
Qed.

Lemma run_requests c es : forall w w',
  run c w es = Some w' ->
  asynchronous (strategy w) = true \/ 1 <= batch_size (strategy w) ->
  Forall (fun n => 1 <= n) (sampler_calls w) ->
  Forall (fun n => 1 <= n) (sampler_calls w').
Proof.
  induction es as [|e es IH]; intros w w' Hrun Hcfg Hw; simpl in Hrun.
  - inversion Hrun; subst. exact Hw.
  - destruct (step c w e) as [w1|] eqn:E; [|discriminate].
    apply (IH w1 w' Hrun).
    + destruct (configuration_kept c (asynchronous (strategy w))
                  (batch_size (strategy w)) [e] w w1) as [Ha Hb].
      { simpl. rewrite E. reflexivity. }
      { split; reflexivity. }
      rewrite Ha, Hb. exact Hcfg.
    + eapply step_requests; eauto.
Qed.

(** C9, as stated, fails on the demo run with [batch_size = 2]: the
    sampler returns [0.3, 1.3] and the point proposed is [1.3], the last
    of the batch, since [pop] takes the queue from its end.  With
    [batch_size = 0] the sampler is asked for 0 points and the call
    raises. *)
Lemma batch_issued_from_the_end :
  (exists w o,
     play demo 4 false 2 0
       [next_action 1; next_action 1; accept 1; accept 2;
        complete 1 (95 # 100); complete 2 (5 # 100)] = Some w
     /\ propose_action demo (strategy w) 2 = Ok o
     /\ sampler_npts o = [2]
     /\ proposed o
        = Some (eval_action (mkProposal [13 # 10]%Q 3 (Some 0%Q)
                               [cb_on_adapt_proposal]))
     /\ batch_queue (after o) = [[3 # 10]]%Q
     /\ ~ issues_first_of_batch demo (strategy w) o)
  /\ (exists w s,
        play demo 4 false 0 0
          [next_action 1; next_action 1; accept 1; accept 2;
           complete 1 (95 # 100); complete 2 (5 # 100)] = Some w
        /\ make_batch demo (set_phase 2 (strategy w)) = Ok (s, [0])
        /\ propose_action demo (strategy w) 2 = Raise IndexError).
Proof.
  split.
  - eexists. eexists. split; [vm_compute; reflexivity|].
    split; [vm_compute; reflexivity|].
    repeat split.
    intros (p & Hp & Hhd). vm_compute in Hp, Hhd.
    inversion Hp; subst; clear Hp. simpl in Hhd. discriminate Hhd.
  - eexists. eexists. split; [vm_compute; reflexivity|].
    split; vm_compute; reflexivity.
Qed.

(** [adapt_proposal_sync] on a queue that ends in [x]. *)
Lemma adapt_proposal_sync_facts c s q x :
  batch_queue s = q ++ [x] ->
  exists p s',
    adapt_proposal_sync c s = Ok (p, s')
    /\ args p = x
    /\ callbacks p = [cb_on_adapt_proposal]
    /\ batch_queue s' = q
    /\ Xpend s' = Xpend s ++ [x]
    /\ feval_pending s' = feval_pending s + 1
    /\ feval_budget s' = feval_budget s - 1
    /\ phase s' = phase s.
Proof.
  intros Hq. destruct s. simpl in Hq. subst.
  unfold adapt_proposal_sync. run_methods. rewrite pop_app.
  eexists. eexists. split; [reflexivity|].
  simpl. repeat split.
Qed.

Lemma sync_batch_call c s t :
  asynchronous s = false -> batch_queue s = [] -> feval_pending s = 0 ->
  stopping_condition s t = false -> 1 <= batch_size s ->
  let n := min_ext (batch_size s) (ext_sub (maxeval s) (numeval s)) in
  let new_points := make_points c n (surrogate s) (X s) (fX s) (Xpend s)
                      sampling_radius in
  (Z.to_nat n <= length new_points)%nat ->
  1 <= n
  /\ exists o p x,
       propose_action c s t = Ok o
       /\ sampler_npts o = [n]
       /\ proposed o = Some (eval_action p)
       /\ nth_error new_points (Z.to_nat n - 1) = Some x
       /\ args p = x
       /\ callbacks p = [cb_on_adapt_proposal]
       /\ phase (after o) = 2
       /\ batch_queue (after o) = firstn (Z.to_nat n - 1) new_points
       /\ Xpend (after o) = Xpend s ++ [x]
       /\ feval_pending (after o) = 1
       /\ feval_budget (after o) = feval_budget s - 1.
Proof.
  intros Hasy Hq Hp Hstop Hb n new_points Hlen.
  pose proof (batch_positive s t Hstop Hb) as Hn. fold n in Hn.
  split; [exact Hn|].
  destruct (nth_error new_points (Z.to_nat n - 1)) as [x|] eqn:Ex;
    [|apply nth_error_None in Ex; lia].
  assert (Hrows : rows_at new_points (range n)
                  = Ok (firstn (Z.to_nat n - 1) new_points ++ [x])).
  { rewrite rows_at_range by exact Hlen.
    replace (Z.to_nat n) with (S (Z.to_nat n - 1)) at 1 by lia.
    now rewrite (firstn_snoc _ _ _ Ex). }
  pose (s1 := set_batch_queue (firstn (Z.to_nat n - 1) new_points ++ [x])
                (set_phase 2 s)).
  assert (Hbatch : make_batch c (set_phase 2 s) = Ok (s1, [n])).
  { subst s1 n new_points. destruct s. simpl in *. subst.
    unfold make_batch. run_methods. rewrite Hrows. reflexivity. }
  destruct (adapt_proposal_sync_facts c s1 _ x eq_refl)
    as (p & s2 & Hsync & Hargs & Hcb & Hq2 & HX2 & Hp2 & Hb2 & Hph2).
  exists {| proposed := Some (eval_action p); after := s2;
            sampler_npts := [n] |}, p, x.
  split.
  - unfold propose_action. rewrite Hstop, Hasy, Hq, Hp. simpl.
    rewrite Hbatch. unfold mbind, result_bind. rewrite Hsync. reflexivity.
  - simpl. subst s1. destruct s. simpl in *.
    repeat split; try assumption; lia.
Qed.

(** C9 (amended): in synchronous mode with a batch size of at least one
    (and a sampler that returns as many rows as it is asked for), when
    [batch_queue] is empty, nothing is pending and no stopping condition
    holds, [propose_action] sets [phase] to 2, asks the sampler once, for
    [n = min(batch_size, maxeval - numeval) >= 1] points, queues the [n]
    rows and proposes the last of them as an adaptive-phase evaluation,
    the first [n - 1] staying queued; and in no reachable world has the
    sampler been asked for less than one point. *)
Theorem synchronous_batch c :
  (forall s t,
     asynchronous s = false -> batch_queue s = [] -> feval_pending s = 0 ->
     stopping_condition s t = false -> 1 <= batch_size s ->
     let n := min_ext (batch_size s) (ext_sub (maxeval s) (numeval s)) in
     let new_points := make_points c n (surrogate s) (X s) (fX s) (Xpend s)
                         sampling_radius in
     (Z.to_nat n <= length new_points)%nat ->
     1 <= n
     /\ exists o p x,
          propose_action c s t = Ok o
          /\ sampler_npts o = [n]
          /\ proposed o = Some (eval_action p)
          /\ nth_error new_points (Z.to_nat n - 1) = Some x
          /\ args p = x
          /\ callbacks p = [cb_on_adapt_proposal]
          /\ phase (after o) = 2
          /\ batch_queue (after o) = firstn (Z.to_nat n - 1) new_points
          /\ Xpend (after o) = Xpend s ++ [x]
          /\ feval_pending (after o) = 1
          /\ feval_budget (after o) = feval_budget s - 1)
  /\ (forall max_evals asy bs w,
        asy = true \/ 1 <= bs ->
        reachable c max_evals asy bs w ->
        Forall (fun n => 1 <= n) (sampler_calls w)).
Proof.
  split.
  - apply sync_batch_call.
  - intros max_evals asy bs w Hcfg (now & s0 & es & Hinit & Hrun).
    apply init_facts in Hinit as (_ & _ & _ & _ & Ha & Hb & _).
    eapply run_requests; [exact Hrun | | constructor].
    simpl. rewrite Ha, Hb. exact Hcfg.
Qed.

Lemma synchronous_batch_witness :
  exists w,
    reachable demo 4 false 2 w
    /\ Forall (fun n => 1 <= n) (sampler_calls w)
    /\ 1 <= min_ext (batch_size (strategy w))
              (ext_sub (maxeval (strategy w)) (numeval (strategy w)))
    /\ exists o p x,
         propose_action demo (strategy w) 2 = Ok o
         /\ sampler_npts o = [2]
         /\ proposed o = Some (eval_action p)
         /\ nth_error [[3 # 10]; [13 # 10]]%Q 1 = Some x
         /\ args p = x
         /\ callbacks p = [cb_on_adapt_proposal]
         /\ phase (after o) = 2
         /\ batch_queue (after o) = [[3 # 10]]%Q
         /\ Xpend (after o) = Xpend (strategy w) ++ [x]
         /\ feval_pending (after o) = 1
         /\ feval_budget (after o) = feval_budget (strategy w) - 1.
Proof.
  destruct (play demo 4 false 2 0
              [next_action 1; next_action 1; accept 1; accept 2;
               complete 1 (95 # 100); complete 2 (5 # 100)])
    as [w|] eqn:E; [|vm_compute in E; discriminate E].
  pose proof (play_reachable _ _ _ _ _ _ _ E) as Hr.
  destruct (synchronous_batch demo) as [Hcall Hcalls].
  assert (Hbs : false = true \/ 1 <= 2) by (right; lia).
  exists w. split; [exact Hr|].
  split; [exact (Hcalls 4 false 2 w Hbs Hr)|].
  concretise E.
  match goal with
  | |- context [propose_action demo ?s _] =>
      refine (Hcall s 2%Q _ _ _ _ _ _)
  end; vm_compute; try reflexivity; try discriminate; lia.
Defined.


(** * Further properties of the scheduler *)

(** An event is delivered only while the run goes on. *)
Lemma step_deliver c w e w' :
  step c w e = Some w' -> raised w = None /\ deliver c w e = Some w'.
Proof.
  unfold step. destruct (raised w); [discriminate|].
  intros H. split; [reflexivity | exact H].
Qed.

(** ** What one call writes *)

(** An eval proposal: a fresh event id, one unit of budget taken, one more
    pending, the point appended to [Xpend], one callback. *)
Lemma propose_eval_effects c s t o p :
  propose_action c s t = Ok o ->
  proposed o = Some (eval_action p) ->
  ev_id p = ev_last s + 1
  /\ ev_last (after o) = ev_last s + 1
  /\ feval_pending (after o) = feval_pending s + 1
  /\ feval_budget (after o) = feval_budget s - 1
  /\ Xpend (after o) = Xpend s ++ [args p]
  /\ length (callbacks p) = 1%nat
  /\ init_pending (after o)
     = init_pending s + (if is_initial_proposal p then 1 else 0)
  /\ accepted_count (after o) = accepted_count s
  /\ rejected_count (after o) = rejected_count s.
Proof.
  intros H Hp. revert H Hp. method_facts;
    match goal with
    | Hp : Some _ = Some _ |- _ => inversion Hp; subst; clear Hp
    end;
    unfold is_initial_proposal in *; simpl in *;
    try discriminate; try reflexivity; lia.
Qed.

(** Anything else leaves the strategy as it was. *)
Lemma propose_other_effects c s t o :
  propose_action c s t = Ok o ->
  match proposed o with
  | Some (eval_action _) => True
  | _ => after o = s /\ sampler_npts o = []
  end.
Proof. method_facts. Qed.

(** The four fields an accept writes nothing to, and the one it does. *)
Lemma accept_effects s p r :
  (forall s' r', on_initial_accepted s p r = (s', r') ->
     s' = set_accepted_count (accepted_count s + 1) s
     /\ rec_ev_id r' = ev_id p /\ params r' = params r
     /\ rec_callbacks r' = rec_callbacks r ++ [cb_on_initial_update])
  /\ (forall s' r', on_adapt_accept s p r = (s', r') ->
        s' = set_accepted_count (accepted_count s + 1) s
        /\ rec_ev_id r' = ev_id p /\ params r' = params r
        /\ rec_callbacks r' = rec_callbacks r ++ [cb_on_adapt_update]).
Proof.
  split; intros s' r' H; unfold on_initial_accepted, on_adapt_accept in H;
    inversion H; subst; repeat split.
Qed.

Lemma terminal_handlers_effects c s :
  (forall p, terminal_effects (args p) true true s (on_initial_rejected s p))
  /\ (forall p, raise_effects s (fst (on_adapt_reject s p)))
  /\ (forall r fx, terminal_effects (params r) true false s
                     (on_initial_completed c s r fx))
  /\ (forall r, terminal_effects (params r) true false s
                  (on_initial_aborted s r))
  /\ (forall r fx, terminal_effects (params r) false false s
                     (on_adapt_completed c s r fx))
  /\ (forall r, terminal_effects (params r) false false s
                  (on_adapt_aborted s r)).
Proof.
  unfold terminal_effects, raise_effects.
  split; [|split; [|split; [|split; [|split]]]]; intros;
    try (method_facts; fail).
  destruct (on_initial_rejected_facts s p) as (_ & _ & _ & _ & _ & HX).
  rewrite without_app_self in HX.
  split; [|split; [|split; [exact HX|]]]; method_facts.
Qed.


(** ** Lists keyed by event id *)

Section Keyed.
Variable A : Type.
Variable key : A -> Z.

Lemma filter_none (ev : Z) (l : list A) :
  ev ∉ map key l ->
  List.filter (fun a => negb (key a =? ev)) l = l.
Proof.
  induction l as [|a l IH]; intros Hnot; simpl; [reflexivity|].
  simpl in Hnot. apply not_elem_of_cons in Hnot as [Hne Hnot].
  destruct (key a =? ev) eqn:E; simpl; [lia|].
  f_equal. now apply IH.
Qed.

(** With pairwise different keys, looking a key up finds the one element
    that filtering the key out removes. *)
Lemma find_and_filter (ev : Z) (l : list A) (p : A) :
  NoDup (map key l) ->
  find (fun a => key a =? ev) l = Some p ->
  exists l1 l2,
    l = l1 ++ p :: l2 /\ key p = ev
    /\ List.filter (fun a => negb (key a =? ev)) l = l1 ++ l2.
Proof.
  induction l as [|a l IH]; intros Hnd Hfind; simpl in *; [discriminate|].
  apply NoDup_cons in Hnd as [Hnot Hnd'].
  destruct (key a =? ev) eqn:E; simpl.
  - inversion Hfind; subst. exists [], l. simpl.
    assert (Hk : key p = ev) by lia.
    repeat split; [exact Hk|]. apply filter_none. now rewrite <- Hk.
  - destruct (IH Hnd' Hfind) as (l1 & l2 & Hl & Hk & Hf).
    exists (a :: l1), l2. simpl. rewrite Hf.
    repeat split; [now rewrite Hl | exact Hk].
Qed.
End Keyed.

(** ** Rows up to equality of their entries *)

Lemma row_eqb_sym (a b : point) : row_eqb a b = row_eqb b a.
Proof.
  revert b. induction a as [|x a IH]; intros [|y b]; simpl; try reflexivity.
  now rewrite Qeq_bool_comm, IH.
Qed.

Lemma row_eqb_trans (a b c : point) :
  row_eqb a b = true -> row_eqb b c = true -> row_eqb a c = true.
Proof.
  revert b c. induction a as [|x a IH]; intros [|y b] [|z c]; simpl;
    try discriminate; try reflexivity.
  intros Hab Hbc.
  apply andb_true_iff in Hab as [Hxy Hab].
  apply andb_true_iff in Hbc as [Hyz Hbc].
  apply andb_true_iff. split.
  - eapply Qeq_bool_trans; eauto.
  - eapply IH; eauto.
Qed.

Lemma row_eqb_compat (a b c : point) :
  row_eqb a b = true -> row_eqb a c = row_eqb b c.
Proof.
  intros Hab.
  destruct (row_eqb b c) eqn:Hbc.
  - eapply row_eqb_trans; eauto.
  - destruct (row_eqb a c) eqn:Hac; [|reflexivity].
    rewrite row_eqb_sym in Hab.
    rewrite <- Hbc. symmetry. eapply row_eqb_trans; eauto.
Qed.

Lemma copies_app (x : point) (m1 m2 : matrix) :
  copies x (m1 ++ m2) = (copies x m1 + copies x m2)%nat.
Proof. unfold copies. now rewrite List.filter_app, length_app. Qed.

Lemma copies_nil (x : point) : copies x [] = 0%nat.
Proof. reflexivity. Qed.

Lemma copies_cons (x row : point) (m : matrix) :
  copies x (row :: m)
  = ((if row_eqb row x then 1 else 0) + copies x m)%nat.
Proof. unfold copies. simpl. now destruct (row_eqb row x). Qed.

Lemma copies_without (x0 x : point) (m : matrix) :
  copies x (without x0 m) = if row_eqb x0 x then 0%nat else copies x m.
Proof.
  induction m as [|row m IH].
  - now destruct (row_eqb x0 x).
  - unfold without in *. simpl. rewrite copies_cons.
    destruct (row_eqb row x0) eqn:E; simpl.
    + rewrite IH. rewrite (row_eqb_compat _ _ x E).
      now destruct (row_eqb x0 x).
    + rewrite copies_cons, IH.
      destruct (row_eqb x0 x) eqn:E0; [|reflexivity].
      rewrite row_eqb_sym in E0.
      assert (Hrow : row_eqb row x = false).
      { rewrite row_eqb_sym, (row_eqb_compat x x0 row E0), row_eqb_sym.
        exact E. }
      rewrite Hrow. reflexivity.
Qed.

Lemma copies_self (x : point) (m : matrix) :
  In x m -> (1 <= copies x m)%nat.
Proof.
  induction m as [|row m IH]; intros Hin; [destruct Hin|].
  rewrite copies_cons. destruct Hin as [->|Hin].
  - rewrite row_eqb_refl. lia.
  - specialize (IH Hin). lia.
Qed.

Lemma copies_positive (x : point) (m : matrix) :
  (1 <= copies x m)%nat -> exists row, In row m /\ row_eqb row x = true.
Proof.
  induction m as [|row m IH]; intros H.
  - unfold copies in H. simpl in H. lia.
  - rewrite copies_cons in H.
    destruct (row_eqb row x) eqn:E.
    + exists row. split; [now left | exact E].
    + destruct IH as (r & Hin & Hr); [lia|].
      exists r. split; [now right | exact Hr].
Qed.

(** A matrix with no more copies of any point than another has no more
    rows. *)
Lemma fewer_copies_fewer_rows : forall (n : nat) (m1 m2 : matrix),
  (length m1 <= n)%nat ->
  (forall x, (copies x m1 <= copies x m2)%nat) ->
  (length m1 <= length m2)%nat.
Proof.
  induction n as [|n IH]; intros m1 m2 Hn Hle.
  - destruct m1; simpl in *; lia.
  - destruct m1 as [|a m1]; [simpl; lia|].
    pose proof (without_length a (a :: m1)) as H1.
    pose proof (without_length a m2) as H2.
    pose proof (Hle a) as Ha.
    assert (Hpos : (1 <= copies a (a :: m1))%nat).
    { apply copies_self. now left. }
    change (length (a :: m1)) with (S (length m1)) in *.
    assert (Hrec : (length (without a (a :: m1))
                    <= length (without a m2))%nat).
    { apply IH.
      - lia.
      - intros x. rewrite !copies_without.
        destruct (row_eqb a x); [lia | apply Hle]. }
    lia.
Qed.

Lemma distinct_copies (x : point) (m : matrix) :
  distinct m = true -> (copies x m <= 1)%nat.
Proof.
  induction m as [|row m IH]; intros H.
  - unfold copies. simpl. lia.
  - simpl in H. apply andb_true_iff in H as [Hnone Hd].
    rewrite copies_cons. specialize (IH Hd).
    destruct (row_eqb row x) eqn:E; [|lia].
    assert (copies x m = 0%nat); [|lia].
    destruct (copies x m) as [|k] eqn:Ek; [reflexivity|].
    destruct (copies_positive x m) as (r & Hin & Hr); [lia|].
    apply negb_true_iff in Hnone.
    assert (existsb (row_eqb row) m = true); [|congruence].
    apply existsb_exists. exists r. split; [exact Hin|].
    rewrite (row_eqb_compat _ _ r E), row_eqb_sym. exact Hr.
Qed.


(** ** One callback each *)

Lemma answer_accept s p r :
  length (callbacks p) = 1%nat ->
  exists r',
    answer s p (Some r)
    = (set_accepted_count (accepted_count s + 1) s, Ok (Some r'))
    /\ rec_ev_id r' = ev_id p
    /\ params r' = params r
    /\ rec_callbacks r'
       = rec_callbacks r ++ [if is_initial_proposal p
                             then cb_on_initial_update
                             else cb_on_adapt_update].
Proof.
  unfold answer, is_initial_proposal. intros H.
  destruct (callbacks p) as [|cb [|cb' cbs]]; simpl in H; try discriminate.
  destruct cb; simpl; eexists; (split; [reflexivity|]); repeat split.
Qed.

Lemma answer_reject s p :
  length (callbacks p) = 1%nat ->
  answer s p None
  = if is_initial_proposal p then (on_initial_rejected s p, Ok None)
    else (fst (on_adapt_reject s p), Raise AttributeError).
Proof.
  unfold answer, is_initial_proposal. intros H.
  destruct (callbacks p) as [|cb [|cb' cbs]]; simpl in H; try discriminate.
  destruct cb; reflexivity.
Qed.

Lemma update_one c s r :
  length (rec_callbacks r) = 1%nat ->
  update c s r
  = if is_initial_record r then on_initial_update c s r
    else on_adapt_update c s r.
Proof.
  unfold update, is_initial_record. intros H.
  destruct (rec_callbacks r) as [|cb [|cb' cbs]]; simpl in H;
    try discriminate.
  destruct cb; reflexivity.
Qed.

(** A record that completes or is killed ends in its terminal handler. *)
Lemma update_terminal c s r st :
  length (rec_callbacks r) = 1%nat ->
  (exists fx, st = completed fx) \/ st = killed ->
  terminal_effects (params r) (is_initial_record r) false s
    (update c s (set_status st r)).
Proof.
  intros H Hst.
  rewrite update_one by exact H.
  destruct (terminal_handlers_effects c s) as (_ & _ & Hic & Hia & Hac & Haa).
  change (is_initial_record (set_status st r)) with (is_initial_record r).
  destruct Hst as [[fx ->]| ->]; destruct (is_initial_record r);
    unfold on_initial_update, on_adapt_update; simpl.
  - apply (Hic (set_status (completed fx) r)).
  - apply (Hac (set_status (completed fx) r)).
  - apply (Hia (set_status killed r)).
  - apply (Haa (set_status killed r)).
Qed.

(** ** Events as moves *)

Lemma step_moves c w e w' :
  Forall (fun p => length (callbacks p) = 1%nat) (proposals w) ->
  Forall (fun r => length (rec_callbacks r) = 1%nat) (records w) ->
  NoDup (map ev_id (proposals w)) ->
  NoDup (map rec_ev_id (records w)) ->
  step c w e = Some w' ->
  moves w w'.
Proof.
  intros Hcb Hrcb Hnp Hnr Hstep. unfold step in Hstep.
  destruct (raised w); [discriminate|].
  destruct e as [t|ev|ev|ev fx|ev]; simpl in Hstep.
  - destruct (propose_action c (strategy w) t) as [o|] eqn:E;
      [|discriminate].
    inversion Hstep; subst; clear Hstep.
    pose proof (propose_other_effects c _ _ _ E) as Hother.
    destruct (proposed o) as [[|p]|] eqn:Ep.
    + destruct Hother as [Hs Hn].
      apply move_idle; simpl; try reflexivity; try assumption.
      rewrite Hn. apply app_nil_r.
    + destruct (propose_eval_effects c _ _ _ p E Ep)
        as (H1 & H2 & H3 & _ & H5 & H6 & H7 & H8 & H9).
      eapply move_propose with (p := p); simpl; try reflexivity;
        assumption.
    + destruct Hother as [Hs Hn].
      apply move_idle; simpl; try reflexivity; try assumption.
      rewrite Hn. apply app_nil_r.
  - destruct (find (has_ev ev) (proposals w)) as [p|] eqn:Ef;
      [|discriminate].
    destruct (find_and_filter _ ev_id ev _ p Hnp Ef)
      as (l1 & l2 & Hl & Hk & Hf).
    assert (Hp : length (callbacks p) = 1%nat).
    { rewrite Hl in Hcb. apply Forall_app in Hcb as [_ Hcb].
      now inversion Hcb. }
    destruct (answer_accept (strategy w) p (new_record p) Hp)
      as (r' & Ha & Hid & Hpar & Hrc).
    rewrite Ha in Hstep. inversion Hstep; subst; clear Hstep.
    eapply move_accept with (p := p) (r := r'); simpl; try eassumption;
      try reflexivity.
    + rewrite Hrc. simpl. reflexivity.
    + unfold is_initial_record. rewrite Hrc. simpl.
      now destruct (is_initial_proposal p).
  - destruct (find (has_ev ev) (proposals w)) as [p|] eqn:Ef;
      [|discriminate].
    destruct (find_and_filter _ ev_id ev _ p Hnp Ef)
      as (l1 & l2 & Hl & Hk & Hf).
    assert (Hp : length (callbacks p) = 1%nat).
    { rewrite Hl in Hcb. apply Forall_app in Hcb as [_ Hcb].
      now inversion Hcb. }
    rewrite (answer_reject _ _ Hp) in Hstep.
    destruct (terminal_handlers_effects c (strategy w))
      as (Hir & Har & _).
    destruct (is_initial_proposal p) eqn:Hini;
      inversion Hstep; subst; clear Hstep.
    + eapply move_reject with (p := p); simpl; try eassumption;
        try reflexivity. exact (Hir p).
    + eapply move_raise with (p := p); simpl; try eassumption;
        try reflexivity. exact (Har p).
  - destruct (find (rec_has_ev ev) (records w)) as [r|] eqn:Ef;
      [|discriminate].
    destruct (find_and_filter _ rec_ev_id ev _ r Hnr Ef)
      as (l1 & l2 & Hl & Hk & Hf).
    assert (Hr : length (rec_callbacks r) = 1%nat).
    { rewrite Hl in Hrcb. apply Forall_app in Hrcb as [_ Hrcb].
      now inversion Hrcb. }
    inversion Hstep; subst; clear Hstep.
    eapply move_finish with (r := r); simpl; try eassumption;
      try reflexivity.
    apply update_terminal; [exact Hr | left; now exists fx].
  - destruct (find (rec_has_ev ev) (records w)) as [r|] eqn:Ef;
      [|discriminate].
    destruct (find_and_filter _ rec_ev_id ev _ r Hnr Ef)
      as (l1 & l2 & Hl & Hk & Hf).
    assert (Hr : length (rec_callbacks r) = 1%nat).
    { rewrite Hl in Hrcb. apply Forall_app in Hrcb as [_ Hrcb].
      now inversion Hrcb. }
    inversion Hstep; subst; clear Hstep.
    eapply move_finish with (r := r); simpl; try eassumption;
      try reflexivity.
    apply update_terminal; [exact Hr | now right].
Qed.


(** ** The controller's lists and the strategy's counters *)

Lemma accepted_fields (v : Z) (s : GlobalStrategy) :
  ev_last (set_accepted_count v s) = ev_last s
  /\ feval_pending (set_accepted_count v s) = feval_pending s
  /\ init_pending (set_accepted_count v s) = init_pending s
  /\ accepted_count (set_accepted_count v s) = v
  /\ rejected_count (set_accepted_count v s) = rejected_count s
  /\ Xpend (set_accepted_count v s) = Xpend s.
Proof. destruct s. repeat split. Qed.

Ltac count_lists :=
  rewrite ?map_app, ?List.filter_app, ?length_app in *; simpl in *;
  rewrite ?map_app, ?List.filter_app, ?length_app in *; simpl in *.

Lemma moves_in_step w w' : in_step w -> moves w w' -> in_step w'.
Proof.
  intros (H1 & H2 & H3 & H4 & H5 & H6 & H7 & H8 & H9) Hm.
  unfold in_step, in_flight_ids, in_flight, initial_in_flight in *.
  destruct Hm as
    [Hs HP HR Hc _
    |p _ HP HR Hid Hev Hpend HX Hcb Hinit Hacc Hrej
    |p l1 l2 r _ HP HP' HR Hid Hpar Hcb Hini Hs
    |p l1 l2 _ HP HP' HR Hini Heff
    |p l1 l2 _ HP HP' HR Hini Heff
    |r l1 l2 _ HR HR' HP Heff].
  - rewrite Hs, HP, HR. repeat split; assumption.
  - rewrite HP, HR, Hev, Hpend, Hinit, Hacc, Hrej.
    assert (Hperm : map ev_id (proposals w ++ [p])
                    ++ map rec_ev_id (records w)
                    ≡ₚ ev_id p :: (map ev_id (proposals w)
                                    ++ map rec_ev_id (records w))).
    { rewrite map_app. simpl. solve_Permutation. }
    split; [apply Forall_app; split; [exact H1 | now constructor]|].
    split; [exact H2|].
    split.
    { rewrite Hperm. apply NoDup_cons. split; [|exact H3].
      intros Hin. rewrite List.Forall_forall in H4.
      apply list_elem_of_In in Hin. specialize (H4 _ Hin). lia. }
    split.
    { rewrite Hperm. constructor; [lia|].
      eapply Forall_impl; [exact H4|]. simpl. intros i Hi. lia. }
    count_lists. destruct (is_initial_proposal p); simpl; lia.
  - destruct (accepted_fields (accepted_count (strategy w) + 1)
                (strategy w)) as (F1 & F2 & F3 & F4 & F5 & _).
    rewrite Hs, HP', HR, F1, F2, F3, F4, F5. rewrite HP in *.
    assert (Hperm : map ev_id (l1 ++ l2)
                    ++ map rec_ev_id (records w ++ [r])
                    ≡ₚ map ev_id (l1 ++ p :: l2)
                       ++ map rec_ev_id (records w)).
    { rewrite !map_app. simpl. rewrite Hid. solve_Permutation. }
    apply Forall_app in H1 as [H1a H1b]. inversion H1b; subst.
    split; [apply Forall_app; split; assumption|].
    split; [apply Forall_app; split; [exact H2 | now constructor]|].
    split; [now rewrite Hperm|].
    split; [now rewrite Hperm|].
    count_lists. rewrite Hini.
    destruct (is_initial_proposal p); simpl in *; lia.
  - destruct Heff as (E1 & E2 & E3 & E4 & E5 & E6).
    rewrite HP', HR, E1, E2, E4, E5, E6. rewrite HP in *.
    assert (Hperm : map ev_id (l1 ++ p :: l2) ++ map rec_ev_id (records w)
                    ≡ₚ ev_id p :: (map ev_id (l1 ++ l2)
                                    ++ map rec_ev_id (records w))).
    { rewrite !map_app. simpl. solve_Permutation. }
    rewrite Hperm in H3, H4.
    apply NoDup_cons in H3 as [_ H3]. inversion H4; subst.
    apply Forall_app in H1 as [H1a H1b]. inversion H1b; subst.
    split; [apply Forall_app; split; assumption|].
    split; [exact H2|].
    split; [exact H3|].
    split; [assumption|].
    count_lists.
    destruct (is_initial_proposal p); try discriminate; simpl in *; lia.
  - destruct Heff as (E1 & E2 & E3 & E4 & E5 & E6).
    rewrite HP', HR, E1, E2, E4, E5, E6. rewrite HP in *.
    assert (Hperm : map ev_id (l1 ++ p :: l2) ++ map rec_ev_id (records w)
                    ≡ₚ ev_id p :: (map ev_id (l1 ++ l2)
                                    ++ map rec_ev_id (records w))).
    { rewrite !map_app. simpl. solve_Permutation. }
    rewrite Hperm in H3, H4.
    apply NoDup_cons in H3 as [_ H3]. inversion H4; subst.
    apply Forall_app in H1 as [H1a H1b]. inversion H1b; subst.
    split; [apply Forall_app; split; assumption|].
    split; [exact H2|].
    split; [exact H3|].
    split; [assumption|].
    count_lists.
    destruct (is_initial_proposal p); try discriminate; simpl in *; lia.
  - destruct Heff as (E1 & E2 & E3 & E4 & E5 & E6).
    rewrite HR', HP, E1, E2, E4, E5, E6. rewrite HR in *.
    assert (Hperm : map ev_id (proposals w) ++ map rec_ev_id (l1 ++ r :: l2)
                    ≡ₚ rec_ev_id r
                       :: (map ev_id (proposals w)
                           ++ map rec_ev_id (l1 ++ l2))).
    { rewrite !map_app. simpl. solve_Permutation. }
    rewrite Hperm in H3, H4.
    apply NoDup_cons in H3 as [_ H3]. inversion H4; subst.
    apply Forall_app in H2 as [H2a H2b]. inversion H2b; subst.
    split; [exact H1|].
    split; [apply Forall_app; split; assumption|].
    split; [exact H3|].
    split; [assumption|].
    count_lists. destruct (is_initial_record r); simpl in *; lia.
Qed.


Lemma step_in_step c w e w' :
  in_step w -> step c w e = Some w' -> moves w w' /\ in_step w'.
Proof.
  intros Hw Hstep.
  assert (Hm : moves w w').
  { destruct Hw as (H1 & H2 & H3 & _).
    unfold in_flight_ids in H3. apply NoDup_app in H3 as (Hp & _ & Hr).
    eapply step_moves; eauto. }
  split; [exact Hm | eapply moves_in_step; eauto].
Qed.

Lemma run_in_step c es : forall w w',
  in_step w -> run c w es = Some w' -> in_step w'.
Proof.
  induction es as [|e es IH]; intros w w' Hw Hrun; simpl in Hrun.
  - inversion Hrun; subst. exact Hw.
  - destruct (step c w e) as [w1|] eqn:E; [|discriminate].
    eapply IH; [|exact Hrun]. eapply step_in_step; eauto.
Qed.

Lemma start_in_step c max_evals asy bs now s0 :
  init c max_evals asy bs now = Ok s0 -> in_step (start s0).
Proof.
  unfold init, sample_initial.
  destruct (forallb _ _); [|discriminate].
  intros H. inversion H; subst; clear H.
  unfold in_step, in_flight_ids, in_flight, initial_in_flight. simpl.
  repeat split; try constructor; lia.
Qed.

Lemma reachable_in_step c max_evals asy bs w :
  reachable c max_evals asy bs w -> in_step w.
Proof.
  intros (now & s0 & es & Hinit & Hrun).
  eapply run_in_step; [|exact Hrun]. eapply start_in_step; eauto.
Qed.

(** X1: in every reachable world [feval_pending] is the number of
    proposals waiting for their answer plus the number of evaluations
    under way, and [init_pending] is the number of those that come from
    the initial design. *)
Theorem pending_counts_in_flight c max_evals asy bs w :
  reachable c max_evals asy bs w ->
  feval_pending (strategy w)
  = Z.of_nat (length (proposals w) + length (records w))
  /\ init_pending (strategy w)
     = Z.of_nat (length (List.filter is_initial_proposal (proposals w))
                 + length (List.filter is_initial_record (records w)))
  /\ 0 <= init_pending (strategy w) <= feval_pending (strategy w).
Proof.
  intros Hr. apply reachable_in_step in Hr.
  destruct Hr as (_ & _ & _ & _ & H5 & H6 & _).
  unfold in_flight, initial_in_flight in *.
  split; [exact H5|]. split; [exact H6|].
  pose proof (List.filter_length_le is_initial_proposal (proposals w)).
  pose proof (List.filter_length_le is_initial_record (records w)).
  lia.
Qed.

Lemma pending_counts_in_flight_witness :
  exists w,
    reachable demo 4 true 1 w
    /\ feval_pending (strategy w)
       = Z.of_nat (length (proposals w) + length (records w))
    /\ init_pending (strategy w)
       = Z.of_nat (length (List.filter is_initial_proposal (proposals w))
                   + length (List.filter is_initial_record (records w)))
    /\ 0 <= init_pending (strategy w) <= feval_pending (strategy w).
Proof.
  destruct (play demo 4 true 1 0
              [next_action 1; next_action 1; accept 2; next_action 2])
    as [w|] eqn:E; [|vm_compute in E; discriminate E].
  pose proof (play_reachable _ _ _ _ _ _ _ E) as Hr.
  exists w. split; [exact Hr|].
  exact (pending_counts_in_flight _ _ _ _ _ Hr).
Defined.

(** X2: the event ids in flight are pairwise different and lie between 1
    and [ev_last]; [ev_last] is the number of eval proposals made so far:
    those accepted, those rejected and those not answered yet. *)
Theorem event_ids_fresh c max_evals asy bs w :
  reachable c max_evals asy bs w ->
  NoDup (map ev_id (proposals w) ++ map rec_ev_id (records w))
  /\ Forall (fun i => 1 <= i <= ev_last (strategy w))
       (map ev_id (proposals w) ++ map rec_ev_id (records w))
  /\ ev_last (strategy w)
     = accepted_count (strategy w) + rejected_count (strategy w)
       + Z.of_nat (length (proposals w))
  /\ 0 <= accepted_count (strategy w)
  /\ 0 <= rejected_count (strategy w).
Proof.
  intros Hr. apply reachable_in_step in Hr.
  destruct Hr as (_ & _ & H3 & H4 & _ & _ & H7 & H8 & H9).
  repeat split; assumption.
Qed.

Lemma event_ids_fresh_witness :
  exists w,
    reachable demo 4 true 1 w
    /\ NoDup (map ev_id (proposals w) ++ map rec_ev_id (records w))
    /\ Forall (fun i => 1 <= i <= ev_last (strategy w))
         (map ev_id (proposals w) ++ map rec_ev_id (records w))
    /\ ev_last (strategy w)
       = accepted_count (strategy w) + rejected_count (strategy w)
         + Z.of_nat (length (proposals w))
    /\ 0 <= accepted_count (strategy w)
    /\ 0 <= rejected_count (strategy w).
Proof.
  destruct (play demo 4 true 1 0
              [next_action 1; next_action 1; accept 2; reject 1;
               next_action 2])
    as [w|] eqn:E; [|vm_compute in E; discriminate E].
  pose proof (play_reachable _ _ _ _ _ _ _ E) as Hr.
  exists w. split; [exact Hr|].
  exact (event_ids_fresh _ _ _ _ _ Hr).
Defined.

(** ** The rows of [Xpend] *)

(** The points in flight before and after a move that does not end the
    run. *)
Lemma moves_points w w' (x : point) :
  moves w w' ->
  raised w' = None ->
  (copies x (in_flight_points w') = copies x (in_flight_points w)
   /\ Xpend (strategy w') = Xpend (strategy w))
  \/ (exists p,
        copies x (in_flight_points w')
        = ((if row_eqb p x then 1 else 0)
           + copies x (in_flight_points w))%nat
        /\ Xpend (strategy w') = Xpend (strategy w) ++ [p])
  \/ (exists p,
        In p (in_flight_points w)
        /\ copies x (in_flight_points w)
           = ((if row_eqb p x then 1 else 0)
              + copies x (in_flight_points w'))%nat
        /\ Xpend (strategy w') = without p (Xpend (strategy w))).
Proof.
  unfold in_flight_points.
  intros [Hs HP HR Hc _
         |p _ HP HR Hid Hev Hpend HX Hcb Hinit Hacc Hrej
         |p l1 l2 r _ HP HP' HR Hid Hpar Hcb Hini Hs
         |p l1 l2 _ HP HP' HR Hini Heff
         |p l1 l2 Hraised HP HP' HR Hini Heff
         |r l1 l2 _ HR HR' HP Heff] Hgoes;
    [| | | |congruence|].
  - left. rewrite Hs, HP, HR. split; reflexivity.
  - right. left. exists (args p). rewrite HP, HR, HX.
    split; [|reflexivity].
    rewrite map_app. simpl.
    repeat rewrite ?copies_app, ?copies_cons, ?copies_nil. lia.
  - left. rewrite Hs, HP, HP', HR.
    destruct (accepted_fields (accepted_count (strategy w) + 1)
                (strategy w)) as (_ & _ & _ & _ & _ & F6).
    split; [|exact F6].
    rewrite !map_app. simpl. rewrite Hpar.
    repeat rewrite ?copies_app, ?copies_cons, ?copies_nil. lia.
  - right. right. exists (args p).
    destruct Heff as (_ & _ & E3 & _).
    rewrite HP, HP', HR.
    split; [|split; [|exact E3]].
    + apply in_or_app. left. rewrite map_app. apply in_or_app.
      right. now left.
    + rewrite !map_app. simpl.
      repeat rewrite ?copies_app, ?copies_cons, ?copies_nil. lia.
  - right. right. exists (params r).
    destruct Heff as (_ & _ & E3 & _).
    rewrite HR, HR', HP.
    split; [|split; [|exact E3]].
    + apply in_or_app. right. rewrite map_app. apply in_or_app.
      right. now left.
    + rewrite !map_app. simpl.
      repeat rewrite ?copies_app, ?copies_cons, ?copies_nil. lia.
Qed.


Lemma moves_rows_in_flight w w' :
  rows_in_flight w -> moves w w' -> raised w' = None -> rows_in_flight w'.
Proof.
  intros Hw Hm Hgoes x. specialize (Hw x).
  destruct (moves_points w w' x Hm Hgoes)
    as [[Hc HX]|[(p & Hc & HX)|(p & _ & Hc & HX)]]; rewrite HX.
  - lia.
  - rewrite copies_app, copies_cons, copies_nil. lia.
  - rewrite copies_without. destruct (row_eqb p x); lia.
Qed.

Lemma moves_rows_are_in_flight w w' :
  distinct (in_flight_points w) = true ->
  rows_are_in_flight w -> moves w w' -> raised w' = None ->
  rows_are_in_flight w'.
Proof.
  intros Hd Hw Hm Hgoes x. specialize (Hw x).
  pose proof (distinct_copies x _ Hd) as Hone.
  destruct (moves_points w w' x Hm Hgoes)
    as [[Hc HX]|[(p & Hc & HX)|(p & _ & Hc & HX)]]; rewrite HX.
  - lia.
  - rewrite copies_app, copies_cons, copies_nil. lia.
  - rewrite copies_without. destruct (row_eqb p x); lia.
Qed.

(** A run that has not ended in an exception has not met one on its
    way. *)
Lemma run_goes_on c es w w' :
  run c w es = Some w' -> raised w' = None -> raised w = None.
Proof.
  destruct es as [|e es]; simpl.
  - intros H; inversion H; subst. auto.
  - unfold step. destruct (raised w); [discriminate | reflexivity].
Qed.

Lemma run_rows_in_flight c es : forall w w',
  in_step w -> rows_in_flight w -> run c w es = Some w' ->
  raised w' = None ->
  rows_in_flight w'.
Proof.
  induction es as [|e es IH]; intros w w' Hw Hrows Hrun Hgoes;
    simpl in Hrun.
  - inversion Hrun; subst. exact Hrows.
  - destruct (step c w e) as [w1|] eqn:E; [|discriminate].
    destruct (step_in_step c w e w1 Hw E) as [Hm Hw1].
    eapply IH; [exact Hw1| |exact Hrun|exact Hgoes].
    eapply moves_rows_in_flight; eauto using run_goes_on.
Qed.

Lemma run_rows_are_in_flight c es : forall w w',
  in_step w -> rows_are_in_flight w -> run c w es = Some w' ->
  raised w' = None ->
  distinct_along c w es = true ->
  rows_are_in_flight w'.
Proof.
  induction es as [|e es IH]; intros w w' Hw Hrows Hrun Hgoes Hd;
    simpl in Hrun, Hd.
  - inversion Hrun; subst. exact Hrows.
  - destruct (step c w e) as [w1|] eqn:E; [|discriminate].
    apply andb_true_iff in Hd as [Hd Hd'].
    destruct (step_in_step c w e w1 Hw E) as [Hm Hw1].
    eapply IH; [exact Hw1| |exact Hrun|exact Hgoes|exact Hd'].
    eapply moves_rows_are_in_flight; eauto using run_goes_on.
Qed.

(** X3: in every reachable world of a run that no exception has ended,
    [Xpend] has at most [feval_pending] rows, and every row of [Xpend] is
    equal to the point of a proposal or of an evaluation in flight. *)
Theorem pending_rows_bounded c max_evals asy bs w :
  reachable c max_evals asy bs w ->
  raised w = None ->
  Z.of_nat (length (Xpend (strategy w))) <= feval_pending (strategy w)
  /\ (forall row, In row (Xpend (strategy w)) ->
        exists x, In x (map args (proposals w) ++ map params (records w))
                  /\ row_eqb x row = true).
Proof.
  intros (now & s0 & es & Hinit & Hrun) Hgoes.
  pose proof (start_in_step _ _ _ _ _ _ Hinit) as Hstart.
  pose proof (run_in_step _ _ _ _ Hstart Hrun) as Hw.
  assert (Hrows : rows_in_flight w).
  { eapply run_rows_in_flight; [exact Hstart| |exact Hrun|exact Hgoes].
    apply init_facts in Hinit
      as (_ & _ & _ & _ & _ & _ & _ & _ & _ & HX & _).
    intros x. simpl. rewrite HX. unfold copies. simpl. lia. }
  split.
  - destruct Hw as (_ & _ & _ & _ & H5 & _). rewrite H5.
    pose proof (fewer_copies_fewer_rows _ _ _ (le_n _) Hrows) as Hlen.
    unfold in_flight, in_flight_points in *.
    rewrite length_app, !length_map in Hlen. lia.
  - intros row Hin. apply copies_positive.
    pose proof (copies_self row _ Hin). specialize (Hrows row).
    unfold in_flight_points in Hrows. lia.
Qed.

Lemma pending_rows_bounded_witness :
  exists w,
    reachable twice 4 true 1 w
    /\ raised w = None
    /\ Z.of_nat (length (Xpend (strategy w))) <= feval_pending (strategy w)
    /\ (forall row, In row (Xpend (strategy w)) ->
          exists x, In x (map args (proposals w) ++ map params (records w))
                    /\ row_eqb x row = true).
Proof.
  destruct (play twice 4 true 1 0
              [next_action 1; next_action 1; accept 1; complete 1 (1 # 4)])
    as [w|] eqn:E; [|vm_compute in E; discriminate E].
  pose proof (play_reachable _ _ _ _ _ _ _ E) as Hr.
  assert (Hgoes : raised w = None) by (concretise E; reflexivity).
  exists w. split; [exact Hr|]. split; [exact Hgoes|].
  exact (pending_rows_bounded _ _ _ _ _ Hr Hgoes).
Defined.

(** X4: along a run that no exception has ended and in which no two
    points in flight at the same time are equal, [Xpend] has exactly
    [feval_pending] rows: the points in flight. *)
Theorem pending_rows_exact_when_distinct c max_evals asy bs now s0 es w :
  init c max_evals asy bs now = Ok s0 ->
  run c (start s0) es = Some w ->
  raised w = None ->
  distinct_along c (start s0) es = true ->
  Z.of_nat (length (Xpend (strategy w))) = feval_pending (strategy w)
  /\ forall x, copies x (Xpend (strategy w))
               = copies x (map args (proposals w) ++ map params (records w)).
Proof.
  intros Hinit Hrun Hgoes Hd.
  pose proof (start_in_step _ _ _ _ _ _ Hinit) as Hstart.
  pose proof (run_in_step _ _ _ _ Hstart Hrun) as Hw.
  assert (Hrows : rows_are_in_flight w).
  { eapply run_rows_are_in_flight;
      [exact Hstart| |exact Hrun|exact Hgoes|exact Hd].
    apply init_facts in Hinit
      as (_ & _ & _ & _ & _ & _ & _ & _ & _ & HX & _).
    intros x. simpl. rewrite HX. reflexivity. }
  split; [|exact Hrows].
  destruct Hw as (_ & _ & _ & _ & H5 & _). rewrite H5.
  assert (H1 : (length (Xpend (strategy w))
                <= length (in_flight_points w))%nat).
  { apply (fewer_copies_fewer_rows _ _ _ (le_n _)).
    intros x. rewrite (Hrows x). lia. }
  assert (H2 : (length (in_flight_points w)
                <= length (Xpend (strategy w)))%nat).
  { apply (fewer_copies_fewer_rows _ _ _ (le_n _)).
    intros x. rewrite (Hrows x). lia. }
  unfold in_flight, in_flight_points in *.
  rewrite length_app, !length_map in H1, H2. lia.
Qed.

Lemma pending_rows_exact_when_distinct_witness :
  exists s0 w,
    init demo 4 true 1 0 = Ok s0
    /\ run demo (start s0)
         [next_action 1; next_action 1; accept 1; complete 1 (1 # 4);
          next_action 2] = Some w
    /\ Z.of_nat (length (Xpend (strategy w))) = feval_pending (strategy w)
    /\ forall x, copies x (Xpend (strategy w))
                 = copies x (map args (proposals w)
                             ++ map params (records w)).
Proof.
  destruct (init demo 4 true 1 0) as [s0|] eqn:E0;
    [|vm_compute in E0; discriminate E0].
  destruct (run demo (start s0)
              [next_action 1; next_action 1; accept 1; complete 1 (1 # 4);
               next_action 2]) as [w|] eqn:E;
    [|exfalso; concretise E0; vm_compute in E; discriminate E].
  exists s0, w. split; [reflexivity|]. split; [exact E|].
  apply (pending_rows_exact_when_distinct demo 4 true 1 0 s0 _ w E0 E).
  - concretise E0. concretise E. reflexivity.
  - concretise E0. vm_compute. reflexivity.
Defined.


(** ** What the surrogate and the log hold *)

Lemma combine_snoc {A B} (l : list A) (k : list B) (a : A) (b : B) :
  length l = length k ->
  combine (l ++ [a]) (k ++ [b]) = combine l k ++ [(a, b)].
Proof.
  revert k. induction l as [|x l IH]; intros [|y k] H; simpl in *;
    try discriminate; [reflexivity|].
  f_equal. apply IH. lia.
Qed.

Lemma completed_mirrors c s r fx :
  status r = completed fx ->
  mirrors_completed s ->
  mirrors_completed (on_initial_completed c s r fx)
  /\ mirrors_completed (on_adapt_completed c s r fx).
Proof.
  assert (Hseq : forall m : matrix,
             seq 1 (length (m ++ [params r]))
             = seq 1 (length m) ++ [S (length m)]).
  { intros m. rewrite length_app. simpl. rewrite Nat.add_1_r.
    now rewrite seq_S. }
  intros Hst. destruct s. unfold mirrors_completed. run_methods. simpl.
  intros (H1 & H2 & H3 & H4 & H5 & H6 & H7).
  split; destruct (stopping_criterion c) as [crit|];
    try destruct (crit fx); simpl;
    rewrite Hseq, ?map_app, ?length_app; simpl;
    (split; [lia|]); (split; [lia|]);
    (split; [rewrite H3; symmetry; now apply combine_snoc|]);
    (split; [now rewrite H4|]);
    (split; [now rewrite H5, Hst|]);
    (split; [rewrite H6; do 2 f_equal; lia|]);
    (apply Forall_app; split; [exact H7 | now constructor]).
Qed.

Lemma mirrors_kept c es w w' :
  run c w es = Some w' -> mirrors_completed (strategy w) ->
  mirrors_completed (strategy w').
Proof.
  apply (run_preserves c mirrors_completed).
  - intros s p acc H. revert H. unfold mirrors_completed. method_facts.
  - intros s p acc H. revert H. unfold mirrors_completed. method_facts.
  - intros s r H. unfold on_initial_update.
    destruct (status r) as [| |fx| |] eqn:E; try exact H.
    exact (proj1 (completed_mirrors c s r fx E H)).
  - intros s r H. unfold on_adapt_update.
    destruct (status r) as [| |fx| |] eqn:E; try exact H.
    exact (proj2 (completed_mirrors c s r fx E H)).
  - intros s t o Hcall H. revert Hcall H. unfold mirrors_completed.
    method_facts.
Qed.

(** X5: in every reachable world the surrogate has been handed exactly the
    completed points with their values, in the order of [X] and [fX]; the
    log [fevals] holds one record per row of [X], with that point, that
    value, marked feasible and numbered 1, 2, ... in [worker_numeval]; and
    [X], [fX] have [numeval] rows each. *)
Theorem surrogate_and_log_mirror_completed c max_evals asy bs w :
  reachable c max_evals asy bs w ->
  length (X (strategy w)) = length (fX (strategy w))
  /\ Z.of_nat (length (X (strategy w))) = numeval (strategy w)
  /\ surrogate (strategy w) = combine (X (strategy w)) (fX (strategy w))
  /\ map params (fevals (strategy w)) = X (strategy w)
  /\ map status (fevals (strategy w)) = map completed (fX (strategy w))
  /\ map worker_numeval (fevals (strategy w))
     = map (fun i => Z.of_nat i) (seq 1 (length (X (strategy w))))
  /\ Forall (fun r => feasible r = true) (fevals (strategy w)).
Proof.
  intros (now & s0 & es & Hinit & Hrun).
  apply (mirrors_kept _ _ _ _ Hrun).
  unfold init, sample_initial in Hinit.
  destruct (forallb _ _); [|discriminate].
  inversion Hinit; subst; clear Hinit.
  unfold mirrors_completed. simpl. repeat split; constructor.
Qed.

Lemma surrogate_and_log_mirror_completed_witness :
  exists w,
    reachable demo 4 false 2 w
    /\ length (X (strategy w)) = length (fX (strategy w))
    /\ Z.of_nat (length (X (strategy w))) = numeval (strategy w)
    /\ surrogate (strategy w) = combine (X (strategy w)) (fX (strategy w))
    /\ map params (fevals (strategy w)) = X (strategy w)
    /\ map status (fevals (strategy w)) = map completed (fX (strategy w))
    /\ map worker_numeval (fevals (strategy w))
       = map (fun i => Z.of_nat i) (seq 1 (length (X (strategy w))))
    /\ Forall (fun r => feasible r = true) (fevals (strategy w)).
Proof.
  destruct (play demo 4 false 2 0
              [next_action 1; next_action 1; accept 1; accept 2;
               complete 2 (5 # 100); complete 1 (95 # 100); next_action 2;
               accept 3; abort 3])
    as [w|] eqn:E; [|vm_compute in E; discriminate E].
  pose proof (play_reachable _ _ _ _ _ _ _ E) as Hr.
  exists w. split; [exact Hr|].
  exact (surrogate_and_log_mirror_completed _ _ _ _ _ Hr).
Defined.


(** ** The completed history only grows *)

Ltac grows :=
  unfold extends_history; intros; unfold_methods;
  repeat match goal with
  | H : _ = Ok _ |- _ => revert H
  end;
  split_cases; intros;
  repeat match goal with
  | H : Ok _ = Ok _ |- _ => inversion H; subst; clear H; simpl in *
  end;
  repeat split; try lia;
  first [ eexists; reflexivity
        | exists []; symmetry; apply app_nil_r ].

Lemma extends_history_trans s1 s2 s3 :
  extends_history s1 s2 -> extends_history s2 s3 -> extends_history s1 s3.
Proof.
  intros ([r1 H1] & [v1 H2] & [f1 H3] & H4)
         ([r2 H5] & [v2 H6] & [f2 H7] & H8).
  repeat split; try lia.
  - exists (r1 ++ r2). now rewrite H5, H1, app_assoc.
  - exists (v1 ++ v2). now rewrite H6, H2, app_assoc.
  - exists (f1 ++ f2). now rewrite H7, H3, app_assoc.
Qed.

Lemma history_kept c s0 es w w' :
  run c w es = Some w' -> extends_history s0 (strategy w) ->
  extends_history s0 (strategy w').
Proof.
  apply (run_preserves c (extends_history s0)).
  - intros s p acc H. eapply extends_history_trans; [exact H|].
    clear. revert s p acc. grows.
  - intros s p acc H. eapply extends_history_trans; [exact H|].
    clear. revert s p acc. grows.
  - intros s r H. eapply extends_history_trans; [exact H|].
    clear. revert s r. grows.
  - intros s r H. eapply extends_history_trans; [exact H|].
    clear. revert s r. grows.
  - intros s t o Hcall H. eapply extends_history_trans; [exact H|].
    clear H. revert Hcall. revert s t o. grows.
Qed.

(** X6: whatever the events, the completed history is only appended to:
    [X], [fX] and [fevals] of the earlier world are prefixes of those of
    the later one, and [numeval] does not decrease. *)
Theorem history_append_only c w es w' :
  run c w es = Some w' ->
  (exists rows, X (strategy w') = X (strategy w) ++ rows)
  /\ (exists values, fX (strategy w') = fX (strategy w) ++ values)
  /\ (exists recs, fevals (strategy w') = fevals (strategy w) ++ recs)
  /\ numeval (strategy w) <= numeval (strategy w').
Proof.
  intros Hrun. apply (history_kept c (strategy w) es w w' Hrun).
  repeat split; try lia; exists []; symmetry; apply app_nil_r.
Qed.

Lemma history_append_only_witness :
  exists w w',
    run demo w [complete 2 (5 # 100); next_action 2; abort 1] = Some w'
    /\ (exists rows, X (strategy w') = X (strategy w) ++ rows)
    /\ (exists values, fX (strategy w') = fX (strategy w) ++ values)
    /\ (exists recs, fevals (strategy w') = fevals (strategy w) ++ recs)
    /\ numeval (strategy w) <= numeval (strategy w').
Proof.
  destruct (play demo 4 true 1 0
              [next_action 1; next_action 1; accept 1; accept 2])
    as [w|] eqn:E; [|vm_compute in E; discriminate E].
  destruct (run demo w [complete 2 (5 # 100); next_action 2; abort 1])
    as [w'|] eqn:E1;
    [|exfalso; concretise E; vm_compute in E1; discriminate E1].
  exists w, w'. split; [exact E1|].
  exact (history_append_only demo w _ w' E1).
Defined.

(** ** Stopping *)

Lemma terminate_kept c es w w' :
  run c w es = Some w' -> terminate (strategy w) = true ->
  terminate (strategy w') = true.
Proof.
  apply (run_preserves c (fun s => terminate s = true)); method_facts.
Qed.

Lemma exhausted_kept c es w w' :
  run c w es = Some w' ->
  ge_ext (numeval (strategy w)) (maxeval (strategy w)) = true ->
  ge_ext (numeval (strategy w')) (maxeval (strategy w')) = true.
Proof.
  apply (run_preserves c (fun s => ge_ext (numeval s) (maxeval s) = true));
    unfold ge_ext; method_facts.
Qed.

(** X7: once the terminate flag is set or [numeval] has reached
    [maxeval], this stays so through every later event, and every later
    call of [propose_action] returns without touching the strategy: a
    terminate proposal if nothing is pending, no action otherwise; it
    proposes no further evaluation and asks the sampler for nothing. *)
Theorem stopping_is_permanent c w es w' t :
  run c w es = Some w' ->
  stopped (strategy w) ->
  stopped (strategy w')
  /\ propose_action c (strategy w') t
     = Ok {| proposed := if feval_pending (strategy w') =? 0
                         then Some terminate_action else None;
             after := strategy w'; sampler_npts := [] |}.
Proof.
  intros Hrun Hstop.
  assert (Hstop' : stopped (strategy w')).
  { destruct Hstop as [H|H]; [left | right].
    - eapply terminate_kept; eauto.
    - eapply exhausted_kept; eauto. }
  split; [exact Hstop'|].
  assert (Hcond : stopping_condition (strategy w') t = true).
  { unfold stopping_condition.
    destruct Hstop' as [H|H]; rewrite H;
      rewrite ?orb_true_r; reflexivity. }
  unfold propose_action. rewrite Hcond.
  destruct (feval_pending (strategy w') =? 0); reflexivity.
Qed.

Lemma stopping_is_permanent_witness :
  exists w w',
    run demo w [next_action 3; complete 2 (5 # 100)] = Some w'
    /\ stopped (strategy w)
    /\ stopped (strategy w')
    /\ propose_action demo (strategy w') 4
       = Ok {| proposed := if feval_pending (strategy w') =? 0
                           then Some terminate_action else None;
               after := strategy w'; sampler_npts := [] |}.
Proof.
  destruct (play demo 1 true 1 0
              [next_action 1; next_action 1; accept 1; accept 2;
               complete 1 (95 # 100)])
    as [w|] eqn:E; [|vm_compute in E; discriminate E].
  destruct (run demo w [next_action 3; complete 2 (5 # 100)])
    as [w'|] eqn:E1;
    [|exfalso; concretise E; vm_compute in E1; discriminate E1].
  assert (Hs : stopped (strategy w)).
  { concretise E. right. reflexivity. }
  exists w, w'. split; [exact E1|]. split; [exact Hs|].
  exact (stopping_is_permanent demo w _ w' 4 E1 Hs).
Defined.

(** The callbacks of a record leave the terminate flag alone unless the
    record completed with a value the stopping criterion accepts. *)
Lemma update_terminate c r :
  (forall fx crit, status r = completed fx ->
                   stopping_criterion c = Some crit -> crit fx = false) ->
  forall s, terminate (update c s r) = terminate s.
Proof.
  intros Hcrit. unfold update.
  induction (rec_callbacks r) as [|cb cbs IH]; intros s; simpl;
    [reflexivity|].
  rewrite IH. clear IH.
  destruct cb; simpl; unfold on_initial_update, on_adapt_update;
    destruct (status r) as [| |fx| |] eqn:E; try reflexivity;
    try (destruct s; reflexivity);
    destruct (stopping_criterion c) as [crit|] eqn:Ec;
    try (destruct s; run_methods; rewrite Ec; reflexivity);
    pose proof (Hcrit fx crit eq_refl eq_refl) as Hf;
    destruct s; run_methods; rewrite Ec, Hf; reflexivity.
Qed.


Lemma propose_terminate c s t o :
  propose_action c s t = Ok o -> terminate (after o) = terminate s.
Proof. method_facts. Qed.

Lemma completed_sets_terminate c s r fx crit :
  stopping_criterion c = Some crit -> crit fx = true ->
  terminate (on_initial_completed c s r fx) = true
  /\ terminate (on_adapt_completed c s r fx) = true.
Proof.
  intros Ec Hf. destruct s. run_methods. rewrite Ec, Hf. split; reflexivity.
Qed.

(** X8: the terminate flag is set by one thing only, the completion of an
    evaluation with a value the stopping criterion accepts; and in a
    reachable world every such completion sets it. *)
Theorem terminate_set_by_criterion c w e w' :
  step c w e = Some w' ->
  (terminate (strategy w) = false -> terminate (strategy w') = true ->
   exists ev fx crit,
     e = complete ev fx /\ stopping_criterion c = Some crit
     /\ crit fx = true)
  /\ (in_step w ->
      forall ev fx crit,
        e = complete ev fx -> stopping_criterion c = Some crit ->
        crit fx = true -> terminate (strategy w') = true).
Proof.
  intros Hstep. apply step_deliver in Hstep as [_ Hstep]. split.
  - intros Hoff Hon.
    destruct e as [t|ev|ev|ev fx|ev]; simpl in Hstep.
    + destruct (propose_action c (strategy w) t) as [o|] eqn:E;
        [|discriminate].
      inversion Hstep; subst; clear Hstep. simpl in Hon.
      rewrite (propose_terminate _ _ _ _ E) in Hon. congruence.
    + destruct (find (has_ev ev) (proposals w)) as [p|]; [|discriminate].
      pose proof (answer_preserves (fun s => terminate s = false)
                    ltac:(method_facts) ltac:(method_facts)
                    (strategy w) p (Some (new_record p)) Hoff) as Hkeep.
      destruct (answer (strategy w) p (Some (new_record p))) as [s r].
      inversion Hstep; subst; clear Hstep. simpl in *. congruence.
    + destruct (find (has_ev ev) (proposals w)) as [p|]; [|discriminate].
      pose proof (answer_preserves (fun s => terminate s = false)
                    ltac:(method_facts) ltac:(method_facts)
                    (strategy w) p None Hoff) as Hkeep.
      destruct (answer (strategy w) p None) as [s r].
      inversion Hstep; subst; clear Hstep. simpl in *. congruence.
    + destruct (find (rec_has_ev ev) (records w)) as [r|]; [|discriminate].
      inversion Hstep; subst; clear Hstep. simpl in Hon.
      destruct (stopping_criterion c) as [crit|] eqn:Ec.
      * destruct (crit fx) eqn:Ef.
        -- exists ev, fx, crit. repeat split; assumption.
        -- rewrite update_terminate in Hon; [congruence|].
           simpl. intros fx' crit' Hst Hc.
           inversion Hst; subst.
           assert (crit' = crit) by congruence. subst. exact Ef.
      * rewrite update_terminate in Hon; [congruence|].
        intros fx' crit' _ Hc. congruence.
    + destruct (find (rec_has_ev ev) (records w)) as [r|]; [|discriminate].
      inversion Hstep; subst; clear Hstep. simpl in Hon.
      rewrite update_terminate in Hon; [congruence|].
      simpl. intros fx' crit' Hst. discriminate Hst.
  - intros Hw ev fx crit -> Ec Ef. simpl in Hstep.
    destruct (find (rec_has_ev ev) (records w)) as [r|] eqn:Efind;
      [|discriminate].
    inversion Hstep; subst; clear Hstep. simpl.
    destruct Hw as (_ & H2 & _).
    assert (Hr : length (rec_callbacks r) = 1%nat).
    { apply find_some in Efind as [Hin _].
      rewrite List.Forall_forall in H2. now apply H2. }
    rewrite update_one by exact Hr.
    destruct (completed_sets_terminate c (strategy w)
                (set_status (completed fx) r) fx crit Ec Ef) as [Hi Ha].
    destruct (is_initial_record (set_status (completed fx) r));
      unfold on_initial_update, on_adapt_update; simpl; assumption.
Qed.

Lemma terminate_set_by_criterion_witness :
  exists w w',
    reachable demo_until 4 true 1 w
    /\ step demo_until w (complete 2 (5 # 100)) = Some w'
    /\ terminate (strategy w) = false
    /\ terminate (strategy w') = true
    /\ exists ev fx crit,
         complete 2 (5 # 100) = complete ev fx
         /\ stopping_criterion demo_until = Some crit
         /\ crit fx = true.
Proof.
  destruct (play demo_until 4 true 1 0
              [next_action 1; next_action 1; accept 1; accept 2;
               complete 1 (95 # 100)])
    as [w|] eqn:E; [|vm_compute in E; discriminate E].
  destruct (step demo_until w (complete 2 (5 # 100))) as [w'|] eqn:E1;
    [|exfalso; concretise E; vm_compute in E1; discriminate E1].
  pose proof (play_reachable _ _ _ _ _ _ _ E) as Hr.
  assert (Hoff : terminate (strategy w) = false).
  { concretise E. reflexivity. }
  destruct (terminate_set_by_criterion demo_until w _ w' E1)
    as [Honly Hsets].
  assert (Hon : terminate (strategy w') = true).
  { apply (Hsets (reachable_in_step _ _ _ _ _ Hr) 2 (5 # 100)%Q
             (fun fx => Qle_bool fx (1 # 10))); reflexivity. }
  exists w, w'. split; [exact Hr|]. split; [exact E1|].
  split; [exact Hoff|]. split; [exact Hon|].
  exact (Honly Hoff Hon).
Defined.


(** ** When [propose_action] proposes, waits or raises *)

Lemma pop_nonempty (q : list point) :
  q <> [] -> exists x r, pop q = Ok (x, r) /\ q = r ++ [x].
Proof.
  intros Hq. unfold pop.
  destruct (rev q) as [|x l] eqn:E.
  - exfalso. apply Hq. rewrite <- (rev_involutive q), E. reflexivity.
  - exists x, (rev l). split; [reflexivity|].
    rewrite <- (rev_involutive q), E. reflexivity.
Qed.

Lemma pop_empty : pop [] = Raise IndexError.
Proof. reflexivity. Qed.

Lemma init_proposal_total s :
  batch_queue s <> [] ->
  exists p s', init_proposal s = Ok (p, s')
               /\ callbacks p = [cb_on_initial_proposal]
               /\ pred_val p = None
               /\ proposal_counter s' = proposal_counter s.
Proof.
  intros Hq. destruct (pop_nonempty _ Hq) as (x & r & Hpop & _).
  destruct s. simpl in *. unfold init_proposal. run_methods.
  rewrite Hpop. simpl. eexists. eexists. split; [reflexivity|].
  repeat split.
Qed.





Lemma asynchronous_returns c s t :
  asynchronous s = true ->
  stopping_condition s t = false ->
  exists p s' calls,
    propose_action c s t
    = Ok {| proposed := Some (eval_action p); after := s';
            sampler_npts := calls |}.
Proof.
  intros Hasy Hstop. unfold propose_action. rewrite Hstop, Hasy.
  destruct (batch_queue s) as [|x q] eqn:Hq.
  - unfold adapt_proposal_async, mbind, result_bind.
    destruct (make_proposal _ _) as [p s']. simpl.
    eexists. eexists. eexists. reflexivity.
  - assert (Hne : batch_queue s <> []) by (rewrite Hq; discriminate).
    destruct (init_proposal_total s Hne) as (p & s' & Hinit & _).
    unfold eval_outcome. rewrite Hinit. simpl.
    eexists. eexists. eexists. reflexivity.
Qed.








(** X11: [propose_action] returns no action in two situations only, both
    with something pending: under a stopping condition, and in
    synchronous mode with an empty [batch_queue]; it then leaves the
    strategy as it is and asks the sampler for nothing. *)
Theorem no_action_exactly_when c s t :
  ((exists o, propose_action c s t = Ok o /\ proposed o = None) <->
   feval_pending s <> 0
   /\ (stopping_condition s t = true
       \/ (asynchronous s = false /\ batch_queue s = [])))
  /\ (forall o, propose_action c s t = Ok o -> proposed o = None ->
        after o = s /\ sampler_npts o = []).
Proof.
  split; [split|].
  - intros (o & Hcall & Hnone).
    unfold propose_action in Hcall.
    destruct (stopping_condition s t) eqn:Hstop.
    { destruct (feval_pending s =? 0) eqn:Hp; inversion Hcall; subst;
        simpl in Hnone; [discriminate|].
      split; [lia | now left]. }
    destruct (asynchronous s) eqn:Hasy.
    { exfalso.
      destruct (asynchronous_returns c s t Hasy Hstop)
        as (p & s' & calls & Hp).
      unfold propose_action in Hp. rewrite Hstop, Hasy in Hp.
      rewrite Hp in Hcall. inversion Hcall; subst. discriminate Hnone. }
    destruct (batch_queue s) as [|x q] eqn:Hq.
    + destruct (feval_pending s =? 0) eqn:Hp.
      * exfalso. revert Hcall Hnone. unfold mbind, result_bind.
        destruct (make_batch c (set_phase 2 s)) as [[s1 calls]|];
          [|discriminate].
        destruct (adapt_proposal_sync c s1) as [[p s2]|]; [|discriminate].
        intros Hcall Hnone. inversion Hcall; subst. discriminate Hnone.
      * split; [lia|]. right. split; reflexivity.
    + exfalso. revert Hcall Hnone. unfold eval_outcome, mbind, result_bind.
      destruct (phase s =? 1).
      * destruct (init_proposal s) as [[p s1]|]; [|discriminate].
        intros Hcall Hnone. inversion Hcall; subst. discriminate Hnone.
      * destruct (adapt_proposal_sync c s) as [[p s1]|]; [|discriminate].
        intros Hcall Hnone. inversion Hcall; subst. discriminate Hnone.
  - intros (Hp & Hwhy).
    exists {| proposed := None; after := s; sampler_npts := [] |}.
    split; [|reflexivity].
    unfold propose_action.
    assert (Hpb : (feval_pending s =? 0) = false) by lia.
    destruct Hwhy as [Hstop|[Hasy Hq]].
    + rewrite Hstop, Hpb. reflexivity.
    + destruct (stopping_condition s t); rewrite Hpb; [reflexivity|].
      rewrite Hasy, Hq. reflexivity.
  - intros o Hcall Hnone.
    pose proof (propose_other_effects c s t o Hcall) as H.
    rewrite Hnone in H. exact H.
Qed.

Lemma no_action_exactly_when_witness :
  exists w,
    reachable demo 4 false 2 w
    /\ feval_pending (strategy w) <> 0
    /\ (exists o, propose_action demo (strategy w) 2 = Ok o
                  /\ proposed o = None)
    /\ (forall o, propose_action demo (strategy w) 2 = Ok o ->
          proposed o = None ->
          after o = strategy w /\ sampler_npts o = []).
Proof.
  destruct (play demo 4 false 2 0
              [next_action 1; next_action 1; accept 1; accept 2;
               complete 1 (95 # 100)])
    as [w|] eqn:E; [|vm_compute in E; discriminate E].
  pose proof (play_reachable _ _ _ _ _ _ _ E) as Hr.
  destruct (no_action_exactly_when demo (strategy w) 2) as [Hiff Hsame].
  assert (Hp : feval_pending (strategy w) <> 0).
  { concretise E. vm_compute. discriminate. }
  assert (Hq : asynchronous (strategy w) = false
               /\ batch_queue (strategy w) = []).
  { concretise E. split; reflexivity. }
  exists w. split; [exact Hr|]. split; [exact Hp|].
  split; [|exact Hsame].
  apply (proj2 Hiff). split; [exact Hp | right; exact Hq].
Defined.


(** ** Construction and the initial design *)



(** Under an evaluation budget the fresh strategy is running in its
    initial phase. *)
Lemma init_running c max_evals asy bs now s0 :
  init c max_evals asy bs now = Ok s0 ->
  0 < max_evals ->
  initial_and_running max_evals s0
  /\ batch_queue s0 = start_sample c
  /\ feval_budget s0 = max_evals
  /\ feval_pending s0 = 0
  /\ ev_last s0 = 0
  /\ Xpend s0 = [].
Proof.
  unfold init, sample_initial. intros Hinit Hpos.
  destruct (forallb _ _); [|discriminate].
  inversion Hinit; subst; clear Hinit.
  assert (Hneg : (max_evals <? 0) = false) by lia.
  assert (Habs : np_abs max_evals = max_evals).
  { unfold np_abs. destruct (max_evals =? - 2 ^ 63) eqn:E; lia. }
  unfold initial_and_running.
  cbn [fresh set_surrogate set_batch_queue terminate time_budget maxeval
       numeval phase batch_queue feval_budget feval_pending ev_last Xpend
       app].
  rewrite Hneg, Habs. repeat split; lia.
Qed.

Lemma ask_initial_step c s t q x m :
  initial_and_running m s ->
  batch_queue s = q ++ [x] ->
  exists p s',
    propose_action c s t
    = Ok {| proposed := Some (eval_action p); after := s';
            sampler_npts := [] |}
    /\ args p = x /\ ev_id p = ev_last s + 1
    /\ callbacks p = [cb_on_initial_proposal]
    /\ batch_queue s' = q
    /\ Xpend s' = Xpend s ++ [x]
    /\ feval_pending s' = feval_pending s + 1
    /\ feval_budget s' = feval_budget s - 1
    /\ ev_last s' = ev_last s + 1
    /\ initial_and_running m s'.
Proof.
  intros (Ht & Htb & Hm & Hn & Hph) Hq.
  assert (Hstop : stopping_condition s t = false).
  { unfold stopping_condition. rewrite Ht, Htb, Hm. simpl.
    rewrite orb_false_r. lia. }
  assert (Hne : batch_queue s <> []).
  { rewrite Hq. intros H. symmetry in H. now apply app_cons_not_nil in H. }
  destruct (init_proposal_total s Hne) as (p & s' & Hinit & Hcb & _).
  destruct (init_proposal_facts s p s' Hinit)
    as (F1 & F2 & F3 & _ & F5 & F6 & _).
  assert (Hx : args p = x /\ batch_queue s' = q).
  { rewrite Hq in F1. apply app_inj_tail in F1 as [-> ->]. now split. }
  destruct Hx as [Hx Hq'].
  assert (Hrest : ev_last s' = ev_last s + 1 /\ initial_and_running m s').
  { unfold initial_and_running. revert Hinit Ht Htb Hm Hn Hph. clear.
    method_facts. }
  exists p, s'. split.
  - unfold propose_action. rewrite Hstop.
    assert (Hcall : eval_outcome (init_proposal s)
                    = Ok {| proposed := Some (eval_action p); after := s';
                            sampler_npts := [] |}).
    { unfold eval_outcome. rewrite Hinit. reflexivity. }
    destruct (asynchronous s), (batch_queue s) as [|y l];
      try contradiction; try exact Hcall.
    rewrite Hph. exact Hcall.
  - destruct Hrest as [Hev Hrun]. rewrite Hx in *.
    repeat (split; [first [reflexivity | assumption | lia]|]).
    exact Hrun.
Qed.

Lemma ask_initial_run c m ts : forall xs q w,
  raised w = None ->
  initial_and_running m (strategy w) ->
  batch_queue (strategy w) = q ++ rev xs ->
  length ts = length xs ->
  exists w' ps,
    run c w (map next_action ts) = Some w'
    /\ proposals w' = proposals w ++ ps
    /\ map args ps = xs
    /\ map ev_id ps
       = map (fun i => ev_last (strategy w) + Z.of_nat i)
           (seq 1 (length xs))
    /\ Forall (fun p => callbacks p = [cb_on_initial_proposal]) ps
    /\ batch_queue (strategy w') = q
    /\ Xpend (strategy w') = Xpend (strategy w) ++ xs
    /\ feval_pending (strategy w')
       = feval_pending (strategy w) + Z.of_nat (length xs)
    /\ feval_budget (strategy w')
       = feval_budget (strategy w) - Z.of_nat (length xs)
    /\ records w' = records w
    /\ sampler_calls w' = sampler_calls w
    /\ initial_and_running m (strategy w').
Proof.
  induction ts as [|t ts IH]; intros xs q w Hgo Hrun Hq Hlen.
  - destruct xs; [|discriminate]. exists w, []. simpl in *.
    rewrite !app_nil_r in *.
    repeat (split; [first [reflexivity | assumption | lia | constructor]|]).
    exact Hrun.
  - destruct xs as [|x xs]; [discriminate|]. simpl in Hlen, Hq.
    rewrite app_assoc in Hq.
    destruct (ask_initial_step c (strategy w) t _ x m Hrun Hq)
      as (p & s' & Hcall & Ha & Hid & Hcb & Hq' & HX & Hp & Hb & Hev & Hrun').
    set (w1 := {| strategy := s'; proposals := proposals w ++ [p];
                  records := records w;
                  sampler_calls := sampler_calls w ++ [];
                  raised := None |}).
    destruct (IH xs q w1 eq_refl Hrun' Hq' ltac:(lia))
      as (w' & ps & Hr & HP & Hargs & Hids & Hcbs & Hqq & HXX & Hpp & Hbb
          & HR & HS & Hfin).
    exists w', (p :: ps). simpl. unfold step. rewrite Hgo. simpl.
    rewrite Hcall. simpl. fold w1.
    split; [exact Hr|]. simpl in *.
    split; [rewrite HP, <- app_assoc; reflexivity|].
    split; [now rewrite Ha, Hargs|].
    split.
    { rewrite Hid, Hids, Hev. f_equal; try lia.
      rewrite <- (seq_shift (length xs) 1), map_map.
      apply map_ext. intros i. lia. }
    split; [now constructor|].
    split; [exact Hqq|].
    split; [rewrite HXX, HX, <- app_assoc; reflexivity|].
    split; [lia|]. split; [lia|]. split; [exact HR|].
    split; [rewrite HS; apply app_nil_r | exact Hfin].
Qed.

(** X13: under an evaluation budget [max_evals > 0] the first calls of
    [propose_action] take the design from its end: if the design is the
    rows [q] followed by the rows [xs] in reverse, as many calls as there
    are rows in [xs] propose exactly [xs], in this order, as initial-phase
    proposals with event ids 1, 2, ..., leave [q] queued, and ask the
    sampler for nothing. *)
Theorem design_proposed_from_the_end c max_evals asy bs now s0 q xs ts :
  init c max_evals asy bs now = Ok s0 ->
  0 < max_evals ->
  start_sample c = q ++ rev xs ->
  length ts = length xs ->
  exists w,
    run c (start s0) (map next_action ts) = Some w
    /\ map args (proposals w) = xs
    /\ map ev_id (proposals w) = map Z.of_nat (seq 1 (length xs))
    /\ Forall (fun p => callbacks p = [cb_on_initial_proposal])
         (proposals w)
    /\ batch_queue (strategy w) = q
    /\ Xpend (strategy w) = xs
    /\ feval_pending (strategy w) = Z.of_nat (length xs)
    /\ feval_budget (strategy w) = max_evals - Z.of_nat (length xs)
    /\ records w = [] /\ sampler_calls w = []
    /\ phase (strategy w) = 1.
Proof.
  intros Hinit Hpos Hdesign Hlen.
  destruct (init_running c max_evals asy bs now s0 Hinit Hpos)
    as (Hrun & Hq & Hb & Hp & Hev & HX).
  destruct (ask_initial_run c max_evals ts xs q (start s0) eq_refl Hrun)
    as (w & ps & Hr & HP & Hargs & Hids & Hcbs & Hqq & HXX & Hpp & Hbb
        & HR & HS & Hfin); [simpl; congruence | exact Hlen |].
  simpl in *. exists w. rewrite HP, Hargs, Hids, Hev, HXX, HX, Hpp, Hbb.
  split; [exact Hr|]. repeat split; try assumption; try lia.
  - apply Hfin.
Qed.

Lemma design_proposed_from_the_end_witness :
  exists s0 w,
    init demo 4 true 1 0 = Ok s0
    /\ run demo (start s0) (map next_action [1; 2]%Q) = Some w
    /\ map args (proposals w) = [[9 # 10]; [1 # 10]]%Q
    /\ map ev_id (proposals w) = map Z.of_nat (seq 1 2)
    /\ Forall (fun p => callbacks p = [cb_on_initial_proposal])
         (proposals w)
    /\ batch_queue (strategy w) = []
    /\ Xpend (strategy w) = [[9 # 10]; [1 # 10]]%Q
    /\ feval_pending (strategy w) = Z.of_nat 2
    /\ feval_budget (strategy w) = 4 - Z.of_nat 2
    /\ records w = [] /\ sampler_calls w = []
    /\ phase (strategy w) = 1.
Proof.
  destruct (init demo 4 true 1 0) as [s0|] eqn:E0;
    [|vm_compute in E0; discriminate E0].
  destruct (design_proposed_from_the_end demo 4 true 1 0 s0 []
              [[9 # 10]; [1 # 10]]%Q [1; 2]%Q E0)
    as (w & H); [lia | reflexivity | reflexivity |].
  exists s0, w. split; [reflexivity | exact H].
Defined.


(** ** The exception that ends a run *)

Lemma one_adaptive_callback p :
  length (callbacks p) = 1%nat ->
  is_initial_proposal p = false <-> callbacks p = [cb_on_adapt_proposal].
Proof.
  unfold is_initial_proposal. intros H.
  destruct (callbacks p) as [|cb [|cb' cbs]]; simpl in H; try discriminate.
  destruct cb; split; intros E; try reflexivity; discriminate E.
Qed.

Lemma proposal_found (ev : Z) (ps : list Proposal) (p : Proposal) :
  Forall (fun p => length (callbacks p) = 1%nat) ps ->
  find (has_ev ev) ps = Some p -> length (callbacks p) = 1%nat.
Proof.
  intros Hall Hfind. apply find_some in Hfind as [Hin _].
  rewrite List.Forall_forall in Hall. now apply Hall.
Qed.

(** X14: of the events the strategy's callbacks answer, the one that ends
    in an exception is the rejection of an adaptive-phase proposal, and
    that one always does: it raises [AttributeError], takes the proposal
    off [feval_pending], leaves [Xpend] as it was, and no later event is
    delivered.  No other callback raises, that of a rejected initial-phase
    proposal included. *)
Theorem exception_exactly_on_adaptive_rejection c max_evals asy bs w e w' :
  reachable c max_evals asy bs w ->
  step c w e = Some w' ->
  (raised w' = None \/ raised w' = Some AttributeError)
  /\ (raised w' = Some AttributeError <->
      exists ev p,
        e = reject ev /\ find (has_ev ev) (proposals w) = Some p
        /\ callbacks p = [cb_on_adapt_proposal])
  /\ (raised w' = Some AttributeError ->
      Xpend (strategy w') = Xpend (strategy w)
      /\ feval_pending (strategy w') = feval_pending (strategy w) - 1
      /\ forall e', step c w' e' = None).
Proof.
  intros Hr Hstep. apply reachable_in_step in Hr as (Hcb & _).
  apply step_deliver in Hstep as [_ Hstep].
  destruct e as [t|ev|ev|ev fx|ev]; simpl in Hstep.
  - destruct (propose_action c (strategy w) t) as [o|]; [|discriminate].
    inversion Hstep; subst; clear Hstep. simpl.
    split; [now left|]. split; [split|]; try discriminate.
    intros (ev & p & He & _). discriminate He.
  - destruct (find (has_ev ev) (proposals w)) as [p|] eqn:Ef;
      [|discriminate].
    destruct (answer_accept (strategy w) p (new_record p)
                (proposal_found _ _ _ Hcb Ef)) as (r' & Ha & _).
    rewrite Ha in Hstep. inversion Hstep; subst; clear Hstep. simpl.
    split; [now left|]. split; [split|]; try discriminate.
    intros (ev' & p' & He & _). discriminate He.
  - destruct (find (has_ev ev) (proposals w)) as [p|] eqn:Ef;
      [|discriminate].
    pose proof (proposal_found _ _ _ Hcb Ef) as Hp.
    pose proof (one_adaptive_callback p Hp) as Hkind.
    rewrite (answer_reject _ _ Hp) in Hstep.
    destruct (terminal_handlers_effects c (strategy w))
      as (_ & Har & _).
    destruct (Har p) as (E1 & _ & E3 & _).
    destruct (is_initial_proposal p) eqn:Hini;
      inversion Hstep; subst; clear Hstep; simpl in *.
    + split; [now left|]. split; [split|]; try discriminate.
      intros (ev' & p' & He & Hf & Hc). inversion He; subst.
      assert (p' = p) by congruence. subst p'.
      apply Hkind in Hc. discriminate Hc.
    + split; [now right|]. split; [split|].
      * intros _. exists ev, p. repeat split; try assumption.
        now apply Hkind.
      * reflexivity.
      * intros _. repeat split; assumption.
  - destruct (find (rec_has_ev ev) (records w)) as [r|]; [|discriminate].
    inversion Hstep; subst; clear Hstep. simpl.
    split; [now left|]. split; [split|]; try discriminate.
    intros (ev' & p' & He & _). discriminate He.
  - destruct (find (rec_has_ev ev) (records w)) as [r|]; [|discriminate].
    inversion Hstep; subst; clear Hstep. simpl.
    split; [now left|]. split; [split|]; try discriminate.
    intros (ev' & p' & He & _). discriminate He.
Qed.

Lemma exception_exactly_on_adaptive_rejection_witness :
  exists w w',
    reachable demo 4 true 1 w
    /\ step demo w (reject 3) = Some w'
    /\ raised w' = Some AttributeError
    /\ Xpend (strategy w') = Xpend (strategy w)
    /\ feval_pending (strategy w') = feval_pending (strategy w) - 1
    /\ forall e', step demo w' e' = None.
Proof.
  destruct (play demo 4 true 1 0
              [next_action 1; next_action 1; next_action 1])
    as [w|] eqn:E; [|vm_compute in E; discriminate E].
  destruct (step demo w (reject 3)) as [w'|] eqn:E1;
    [|exfalso; concretise E; vm_compute in E1; discriminate E1].
  pose proof (play_reachable _ _ _ _ _ _ _ E) as Hr.
  destruct (exception_exactly_on_adaptive_rejection demo 4 true 1 w _ w'
              Hr E1) as (_ & [_ Hiff] & Hthen).
  assert (Hraised : raised w' = Some AttributeError).
  { apply Hiff. concretise E. eexists. eexists.
    split; [reflexivity|]. split; reflexivity. }
  exists w, w'. split; [exact Hr|]. split; [exact E1|].
  split; [exact Hraised | exact (Hthen Hraised)].
Defined.


(** ** The two phases in synchronous mode *)

Lemma Forall_filtered {A} (P : A -> Prop) (f : A -> bool) (l : list A) :
  Forall P l -> Forall P (List.filter f l).
Proof.
  rewrite !List.Forall_forall. intros H a Hin.
  apply filter_In in Hin as [Hin _]. now apply H.
Qed.

Lemma filter_all_or_none {A} (f : A -> bool) (b : bool) (l : list A) :
  Forall (fun a => f a = b) l ->
  length (List.filter f l) = if b then length l else 0%nat.
Proof.
  induction 1 as [|a l Ha _ IH]; simpl; [now destruct b|].
  rewrite Ha. destruct b; simpl; now rewrite IH.
Qed.

(** The proposal a synchronous [propose_action] makes belongs to the
    phase it leaves the strategy in, and the phase changes only with
    nothing pending. *)
Lemma propose_kind c s t o p :
  propose_action c s t = Ok o ->
  proposed o = Some (eval_action p) ->
  asynchronous s = false ->
  is_initial_proposal p = (phase (after o) =? 1)
  /\ (phase (after o) = phase s \/ feval_pending s = 0).
Proof.
  intros H Hp Ha. revert H Hp Ha. unfold is_initial_proposal. method_facts;
    match goal with
    | Hp : Some _ = Some _ |- _ => inversion Hp; subst; clear Hp
    end; simpl in *; try discriminate; try reflexivity;
    try (now left); try (right; lia); try lia.
Qed.

Lemma step_phases_apart c w e w' :
  in_step w ->
  asynchronous (strategy w) = false ->
  step c w e = Some w' ->
  phases_apart w -> phases_apart w'.
Proof.
  intros Hw Hasy Hstep [HP HR]. unfold phases_apart.
  destruct e as [t|ev|ev|ev fx|ev].
  - apply step_deliver in Hstep as [_ Hstep]. simpl in Hstep.
    destruct (propose_action c (strategy w) t) as [o|] eqn:E;
      [|discriminate].
    inversion Hstep; subst; clear Hstep. simpl.
    pose proof (propose_other_effects c _ _ _ E) as Hother.
    destruct (proposed o) as [[|p]|] eqn:Ep.
    + destruct Hother as [Hs _]. rewrite Hs. split; assumption.
    + destruct (propose_kind c _ _ _ p E Ep Hasy)
        as [Hkind [Hsame|Hnone]].
      * rewrite Hsame. split; [|exact HR].
        apply Forall_app. split; [exact HP|].
        constructor; [|constructor]. now rewrite <- Hsame.
      * destruct Hw as (_ & _ & _ & _ & H5 & _). unfold in_flight in H5.
        assert (Hnil : proposals w = [] /\ records w = []).
        { destruct (proposals w), (records w); simpl in H5; try lia.
          split; reflexivity. }
        destruct Hnil as [Hp0 Hr0]. rewrite Hp0, Hr0. simpl.
        split; repeat constructor. exact Hkind.
    + destruct Hother as [Hs _]. rewrite Hs. split; assumption.
  - assert (Hph : phase (strategy w') = phase (strategy w))
      by (eapply phase_kept_by_answers; eauto; discriminate).
    rewrite Hph.
    apply step_deliver in Hstep as [_ Hstep]. simpl in Hstep.
    destruct (find (has_ev ev) (proposals w)) as [p|] eqn:Ef;
      [|discriminate].
    destruct Hw as (Hcb & _).
    destruct (answer_accept (strategy w) p (new_record p)
                (proposal_found _ _ _ Hcb Ef)) as (r' & Ha & _ & _ & Hrc).
    rewrite Ha in Hstep. inversion Hstep; subst; clear Hstep. simpl.
    split; [now apply Forall_filtered|].
    apply Forall_app. split; [exact HR|].
    constructor; [|constructor].
    apply find_some in Ef as [Hin _].
    rewrite List.Forall_forall in HP. rewrite <- (HP p Hin).
    unfold is_initial_record. rewrite Hrc. simpl.
    now destruct (is_initial_proposal p).
  - assert (Hph : phase (strategy w') = phase (strategy w))
      by (eapply phase_kept_by_answers; eauto; discriminate).
    rewrite Hph.
    apply step_deliver in Hstep as [_ Hstep]. simpl in Hstep.
    destruct (find (has_ev ev) (proposals w)) as [p|]; [|discriminate].
    destruct (answer (strategy w) p None) as [s r].
    inversion Hstep; subst; clear Hstep. simpl.
    split; [now apply Forall_filtered | exact HR].
  - assert (Hph : phase (strategy w') = phase (strategy w))
      by (eapply phase_kept_by_answers; eauto; discriminate).
    rewrite Hph.
    apply step_deliver in Hstep as [_ Hstep]. simpl in Hstep.
    destruct (find (rec_has_ev ev) (records w)) as [r|]; [|discriminate].
    inversion Hstep; subst; clear Hstep. simpl.
    split; [exact HP | now apply Forall_filtered].
  - assert (Hph : phase (strategy w') = phase (strategy w))
      by (eapply phase_kept_by_answers; eauto; discriminate).
    rewrite Hph.
    apply step_deliver in Hstep as [_ Hstep]. simpl in Hstep.
    destruct (find (rec_has_ev ev) (records w)) as [r|]; [|discriminate].
    inversion Hstep; subst; clear Hstep. simpl.
    split; [exact HP | now apply Forall_filtered].
Qed.

Lemma run_phases_apart c es : forall w w',
  in_step w ->
  asynchronous (strategy w) = false ->
  run c w es = Some w' ->
  phases_apart w -> phases_apart w'.
Proof.
  induction es as [|e es IH]; intros w w' Hw Hasy Hrun Hph; simpl in Hrun.
  - inversion Hrun; subst. exact Hph.
  - destruct (step c w e) as [w1|] eqn:E; [|discriminate].
    apply (IH w1 w'); try assumption.
    + eapply step_in_step; eauto.
    + destruct (configuration_kept c false (batch_size (strategy w)) [e]
                  w w1) as [Ha _].
      { simpl. rewrite E. reflexivity. }
      { split; [exact Hasy | reflexivity]. }
      exact Ha.
    + eapply step_phases_apart; eauto.
Qed.

(** X18: in synchronous mode the two phases do not overlap.  While
    [phase] is 1 every proposal and every evaluation in flight comes from
    the initial design, so that [init_pending = feval_pending]; once
    [phase] is 2 none does, and [init_pending] is 0. *)
Theorem synchronous_phases_apart c max_evals bs w :
  reachable c max_evals false bs w ->
  Forall (fun p => is_initial_proposal p = (phase (strategy w) =? 1))
    (proposals w)
  /\ Forall (fun r => is_initial_record r = (phase (strategy w) =? 1))
       (records w)
  /\ init_pending (strategy w)
     = if phase (strategy w) =? 1 then feval_pending (strategy w) else 0.
Proof.
  intros (now & s0 & es & Hinit & Hrun).
  pose proof (start_in_step _ _ _ _ _ _ Hinit) as Hstart.
  pose proof (run_in_step _ _ _ _ Hstart Hrun) as Hw.
  apply init_facts in Hinit as (_ & _ & _ & _ & Ha & _).
  destruct (run_phases_apart c es (start s0) w Hstart Ha Hrun) as [HP HR].
  { split; constructor. }
  split; [exact HP|]. split; [exact HR|].
  destruct Hw as (_ & _ & _ & _ & H5 & H6 & _).
  unfold in_flight, initial_in_flight in *.
  rewrite H5, H6.
  rewrite (filter_all_or_none _ _ _ HP), (filter_all_or_none _ _ _ HR).
  destruct (phase (strategy w) =? 1); reflexivity.
Qed.

Lemma synchronous_phases_apart_witness :
  exists w,
    reachable demo 4 false 2 w
    /\ phase (strategy w) = 2
    /\ Forall (fun p => is_initial_proposal p = (phase (strategy w) =? 1))
         (proposals w)
    /\ Forall (fun r => is_initial_record r = (phase (strategy w) =? 1))
         (records w)
    /\ init_pending (strategy w)
       = if phase (strategy w) =? 1 then feval_pending (strategy w) else 0.
Proof.
  destruct (play demo 4 false 2 0
              [next_action 1; next_action 1; accept 1; accept 2;
               complete 1 (95 # 100); complete 2 (5 # 100); next_action 2;
               next_action 2; accept 3])
    as [w|] eqn:E; [|vm_compute in E; discriminate E].
  pose proof (play_reachable _ _ _ _ _ _ _ E) as Hr.
  exists w. split; [exact Hr|].
  split; [concretise E; reflexivity|].
  exact (synchronous_phases_apart _ _ _ _ Hr).
Defined.


(** ** A point given up in the initial phase *)

(** X15: a point of the initial design that is given up, by a killed
    evaluation or by a rejected proposal, is the next one [init_proposal]
    proposes; once it is proposed again the queue, the budget and both
    pending counters are what they were before the point was given up,
    and the point is the last row of [Xpend]. *)
Theorem initial_point_given_up_is_proposed_next s :
  (forall r, exists p s',
     init_proposal (on_initial_aborted s r) = Ok (p, s')
     /\ args p = params r
     /\ callbacks p = [cb_on_initial_proposal]
     /\ batch_queue s' = batch_queue s
     /\ feval_budget s' = feval_budget s
     /\ feval_pending s' = feval_pending s
     /\ init_pending s' = init_pending s
     /\ Xpend s' = without (params r) (Xpend s) ++ [params r])
  /\ (forall p0, exists p s',
        init_proposal (on_initial_rejected s p0) = Ok (p, s')
        /\ args p = args p0
        /\ callbacks p = [cb_on_initial_proposal]
        /\ batch_queue s' = batch_queue s
        /\ feval_budget s' = feval_budget s
        /\ feval_pending s' = feval_pending s
        /\ init_pending s' = init_pending s
        /\ Xpend s' = without (args p0) (Xpend s) ++ [args p0]).
Proof.
  split.
  - intros r. destruct s. unfold init_proposal. run_methods.
    rewrite pop_app. simpl. eexists. eexists. split; [reflexivity|].
    simpl. repeat split; lia.
  - intros p0. destruct s. unfold init_proposal. run_methods.
    rewrite pop_app. simpl. eexists. eexists. split; [reflexivity|].
    simpl.
    match goal with
    | |- context [List.filter ?f (?m ++ [args p0])] =>
        change (List.filter f (m ++ [args p0]))
          with (without (args p0) (m ++ [args p0]))
    end.
    rewrite without_app_self. repeat split; lia.
Qed.

(** ** What no event writes *)

Lemma configuration_kept_by_run c s0 es w w' :
  run c w es = Some w' ->
  start_time (strategy w) = start_time s0
  /\ maxeval (strategy w) = maxeval s0
  /\ time_budget (strategy w) = time_budget s0
  /\ asynchronous (strategy w) = asynchronous s0
  /\ batch_size (strategy w) = batch_size s0
  /\ ev_adjust (strategy w) = ev_adjust s0
  /\ ev_restart (strategy w) = ev_restart s0 ->
  start_time (strategy w') = start_time s0
  /\ maxeval (strategy w') = maxeval s0
  /\ time_budget (strategy w') = time_budget s0
  /\ asynchronous (strategy w') = asynchronous s0
  /\ batch_size (strategy w') = batch_size s0
  /\ ev_adjust (strategy w') = ev_adjust s0
  /\ ev_restart (strategy w') = ev_restart s0.
Proof.
  apply (run_preserves c
           (fun s => start_time s = start_time s0
                     /\ maxeval s = maxeval s0
                     /\ time_budget s = time_budget s0
                     /\ asynchronous s = asynchronous s0
                     /\ batch_size s = batch_size s0
                     /\ ev_adjust s = ev_adjust s0
                     /\ ev_restart s = ev_restart s0));
    method_facts.
Qed.

(** X16: no event writes the configuration: the start time, both
    budgets' limits, the mode and the batch size are those of
    construction throughout, and so are the two event indices
    [ev_adjust] and [ev_restart], which nothing uses. *)
Theorem configuration_never_written c w es w' :
  run c w es = Some w' ->
  start_time (strategy w') = start_time (strategy w)
  /\ maxeval (strategy w') = maxeval (strategy w)
  /\ time_budget (strategy w') = time_budget (strategy w)
  /\ asynchronous (strategy w') = asynchronous (strategy w)
  /\ batch_size (strategy w') = batch_size (strategy w)
  /\ ev_adjust (strategy w') = ev_adjust (strategy w)
  /\ ev_restart (strategy w') = ev_restart (strategy w).
Proof.
  intros Hrun.
  apply (configuration_kept_by_run c (strategy w) es w w' Hrun).
  repeat split.
Qed.

Lemma configuration_never_written_witness :
  exists s0 w,
    init demo (-5) false 2 7 = Ok s0
    /\ run demo (start s0)
         [next_action 8; next_action 8; accept 1; reject 2; complete 1 1;
          next_action 9] = Some w
    /\ start_time (strategy w) = start_time s0
    /\ maxeval (strategy w) = maxeval s0
    /\ time_budget (strategy w) = time_budget s0
    /\ asynchronous (strategy w) = asynchronous s0
    /\ batch_size (strategy w) = batch_size s0
    /\ ev_adjust (strategy w) = ev_adjust s0
    /\ ev_restart (strategy w) = ev_restart s0.
Proof.
  destruct (init demo (-5) false 2 7) as [s0|] eqn:E0;
    [|vm_compute in E0; discriminate E0].
  destruct (run demo (start s0)
              [next_action 8; next_action 8; accept 1; reject 2;
               complete 1 1; next_action 9]) as [w|] eqn:E;
    [|exfalso; concretise E0; vm_compute in E; discriminate E].
  exists s0, w. split; [reflexivity|]. split; [exact E|].
  exact (configuration_never_written demo (start s0) _ w E).
Defined.

(** ** Files next to a checkpoint *)

(** X17: [save] touches two names only.  The strategy ends up under
    [fname], whatever was there before; nothing is left under the
    temporary name, not even a file that was there before; every other
    file is as it was.  A second [save] to the same name replaces the
    first. *)
Theorem save_touches_two_names s fname (fs : files) :
  exists fs',
    save s fname fs = Some fs'
    /\ fs' !! fname = Some s
    /\ fs' !! (fname ++ "_temp")%string = None
    /\ (forall other,
          other <> fname -> other <> (fname ++ "_temp")%string ->
          fs' !! other = fs !! other)
    /\ (forall s2, exists fs'',
          save s2 fname fs' = Some fs'' /\ fs'' !! fname = Some s2
          /\ forall other, other <> fname -> fs'' !! other = fs' !! other).
Proof.
  assert (Hne : (fname ++ "_temp")%string <> fname)
    by apply temp_name_differs.
  unfold save, rename. rewrite lookup_insert_eq.
  eexists. split; [reflexivity|].
  split; [apply lookup_insert_eq|].
  split.
  { rewrite lookup_insert_ne by congruence. apply lookup_delete_eq. }
  split.
  { intros other H1 H2.
    rewrite lookup_insert_ne by congruence.
    rewrite lookup_delete_ne by congruence.
    rewrite lookup_insert_ne by congruence. reflexivity. }
  intros s2. rewrite lookup_insert_eq.
  eexists. split; [reflexivity|].
  split; [apply lookup_insert_eq|].
  intros other H1.
  rewrite lookup_insert_ne by congruence.
  destruct (String.eqb_spec other (fname ++ "_temp")%string) as [->|H2].
  - rewrite lookup_delete_eq.
    rewrite lookup_insert_ne by congruence.
    symmetry. apply lookup_delete_eq.
  - rewrite lookup_delete_ne by congruence.
    rewrite lookup_insert_ne by congruence. reflexivity.
Qed.

Lemma save_touches_two_names_witness :
  let old := fresh 4 true 1 0 in
  let new := fresh 9 false 2 1 in
  let fs : files :=
    <[ "run.ckpt"%string := old ]>
      (<[ "run.ckpt_temp"%string := old ]>
         (<[ "other.ckpt"%string := old ]> ∅)) in
  exists fs',
    save new "run.ckpt" fs = Some fs'
    /\ fs' !! "run.ckpt"%string = Some new
    /\ fs' !! "run.ckpt_temp"%string = None
    /\ fs' !! "other.ckpt"%string = Some old.
Proof.
  intros old new fs.
  destruct (save_touches_two_names new "run.ckpt" fs)
    as (fs' & Hsave & Hnew & Htemp & Hother & _).
  exists fs'. split; [exact Hsave|]. split; [exact Hnew|].
  split; [exact Htemp|].
  rewrite (Hother "other.ckpt"%string) by discriminate.
  reflexivity.
Defined.
